(** * choose.py: an interactive line picker, embedded and verified

    A shallow embedding of [choose.py]: the key decoder ([get_input]), the
    viewport renderer ([out], [render]), the two filters ([filter_fuzzy],
    [filter_regex]), the focus movement ([adjust_focus]) and the main loop.

    Conventions of the embedding.
    - A Python [str] is a [list ascii]; one [ascii] stands for one character
      (code points 0..255).  String literals are written [s"..."].
    - A Python [int] is a [Z]; list indexing follows Python, negative
      indices included ([py_index]).
    - A raised exception is a value of [exn]; code that can raise returns
      a [result].
    - The standard module [re] is not part of the program.  It is modelled
      for a fragment of its pattern syntax: literals, [.], [*], [+], [?],
      [|], groups, [^], [$] and escaped punctuation.  A pattern that uses
      anything else ([[], [{], [(?], a backslash followed by a letter or a
      digit, a lazy or possessive quantifier) is reported as [Unmodelled],
      and every function of the embedding propagates that answer. *)

From Stdlib Require Import Ascii String.
From Stdlib Require Import List ZArith Lia Bool Arith.
From Stdlib Require Import DecimalString.
Import ListNotations.

Local Open Scope Z_scope.
Local Open Scope list_scope.

(** ** Strings *)

Definition str := list ascii.

Definition s (x : string) : str := list_ascii_of_string x.

Definition ascii_eqb (a b : ascii) : bool := Ascii.eqb a b.

Fixpoint str_eqb (a b : str) : bool :=
  match a, b with
  | [], [] => true
  | x :: a', y :: b' => ascii_eqb x y && str_eqb a' b'
  | _, _ => false
  end.

(** [len(x)] as a Python integer. *)
Definition len {A} (l : list A) : Z := Z.of_nat (length l).

(** A non-empty string is true. *)
Definition truthy (x : str) : bool :=
  match x with [] => false | _ => true end.

(** [sep.join(parts)] *)
Fixpoint join (sep : str) (parts : list str) : str :=
  match parts with
  | [] => []
  | [p] => p
  | p :: rest => p ++ sep ++ join sep rest
  end.

(** Iterating a string yields its characters as one-character strings. *)
Definition chars (x : str) : list str := map (fun c => [c]) x.

(** [x[:n]] *)
Definition slice_to {A} (x : list A) (n : Z) : list A :=
  if 0 <=? n then firstn (Z.to_nat n) x
  else firstn (Z.to_nat (len x + n)) x.

(** [x.ljust(n)] *)
Definition ljust (x : str) (n : Z) : str :=
  x ++ repeat " "%char (Z.to_nat (n - len x)).

(** [x[:-1]] *)
Definition drop_last (x : str) : str := slice_to x (-1).

(** ['{}'.format(n)] for an integer. *)
Definition format_int (n : Z) : str :=
  s (NilZero.string_of_int (Z.to_int n)).

(** ** Exceptions and results *)

Inductive exn := ReError | IndexError.

Inductive result (A : Type) :=
| Ok (a : A)
| Raise (e : exn)
| Unmodelled.
Arguments Ok {A} a.
Arguments Raise {A} e.
Arguments Unmodelled {A}.

Definition bind {A B} (r : result A) (k : A -> result B) : result B :=
  match r with
  | Ok a => k a
  | Raise e => Raise e
  | Unmodelled => Unmodelled
  end.

Notation "x <- r ;; k" := (bind r (fun x => k))
  (at level 61, r at next level, right associativity).

(** [l[i]], with Python's negative indices. *)
Definition py_index {A} (l : list A) (i : Z) : result A :=
  let j := if i <? 0 then i + len l else i in
  if (0 <=? j) && (j <? len l) then
    match nth_error l (Z.to_nat j) with
    | Some a => Ok a
    | None => Raise IndexError
    end
  else Raise IndexError.

(** [range(a, b)] *)
Definition py_range (a b : Z) : list Z :=
  map (fun k => a + Z.of_nat k) (seq 0 (Z.to_nat (b - a))).

(** ** The module [re], for the modelled pattern fragment *)

Module Re.

Inductive regex :=
| Eps
| Lit (c : ascii)
| Any
| Bol
| Eol
| Cat (r1 r2 : regex)
| Alt (r1 r2 : regex)
| Star (r : regex)
| Plus (r : regex)
| Opt (r : regex)
| Group (r : regex).

(** A compiled pattern: the flag [re.I] and the syntax tree. *)
Record pattern := { ignorecase : bool; tree : regex }.

(** *** Parsing

    The parser keeps a stack of open groups.  A frame holds the finished
    alternatives of its group and the items of the branch being read, the
    last one first. *)

Record frame := { alts : list regex; items : list regex }.

Definition seq_of (rev_items : list regex) : regex :=
  fold_left (fun acc x => Cat x acc) rev_items Eps.

Fixpoint alt_of (branches : list regex) : regex :=
  match branches with
  | [] => Eps
  | [b] => b
  | b :: rest => Alt b (alt_of rest)
  end.

Definition close (f : frame) : regex :=
  alt_of (alts f ++ [seq_of (items f)]).

Definition push_item (x : regex) (f : frame) : frame :=
  {| alts := alts f; items := x :: items f |}.

Inductive quant := QStar | QPlus | QOpt.

Definition apply_quant (q : quant) (r : regex) : regex :=
  match q with QStar => Star r | QPlus => Plus r | QOpt => Opt r end.

(** A quantifier applies to the last item of the branch: "nothing to
    repeat" without one or after an anchor, "multiple repeat" after
    another quantifier; [?] and [+] after a quantifier make it lazy or
    possessive, which the fragment leaves out. *)
Definition quantify (q : quant) (f : frame) : result frame :=
  match items f with
  | [] => Raise ReError
  | Bol :: _ | Eol :: _ => Raise ReError
  | Star _ :: _ | Plus _ :: _ | Opt _ :: _ =>
      match q with QStar => Raise ReError | _ => Unmodelled end
  | x :: rest => Ok {| alts := alts f; items := apply_quant q x :: rest |}
  end.

Definition is_alnum (c : ascii) : bool :=
  let n := nat_of_ascii c in
  ((48 <=? n) && (n <=? 57) || (65 <=? n) && (n <=? 90)
   || (97 <=? n) && (n <=? 122))%nat.

Fixpoint parse (st : frame) (stack : list frame) (p : str) : result regex :=
  match p with
  | [] =>
      match stack with
      | [] => Ok (close st)
      | _ :: _ => Raise ReError          (* missing ), unterminated subpattern *)
      end
  | c :: rest =>
      if ascii_eqb c "\" then
        match rest with
        | [] => Raise ReError            (* bad escape (end of pattern) *)
        | e :: rest' =>
            if is_alnum e then Unmodelled
            else parse (push_item (Lit e) st) stack rest'
        end
      else if ascii_eqb c "[" then Unmodelled
      else if ascii_eqb c "{" then Unmodelled
      else if ascii_eqb c "(" then
        match rest with
        | "?"%char :: _ => Unmodelled
        | _ => parse {| alts := []; items := [] |} (st :: stack) rest
        end
      else if ascii_eqb c ")" then
        match stack with
        | [] => Raise ReError            (* unbalanced parenthesis *)
        | up :: stack' => parse (push_item (Group (close st)) up) stack' rest
        end
      else if ascii_eqb c "|" then
        parse {| alts := alts st ++ [seq_of (items st)]; items := [] |}
              stack rest
      else if ascii_eqb c "*" then
        st' <- quantify QStar st ;; parse st' stack rest
      else if ascii_eqb c "+" then
        st' <- quantify QPlus st ;; parse st' stack rest
      else if ascii_eqb c "?" then
        st' <- quantify QOpt st ;; parse st' stack rest
      else if ascii_eqb c "." then parse (push_item Any st) stack rest
      else if ascii_eqb c "^" then parse (push_item Bol st) stack rest
      else if ascii_eqb c "$" then parse (push_item Eol st) stack rest
      else parse (push_item (Lit c) st) stack rest
  end.

(** [re.compile(p)] and [re.compile(p, re.I)] *)
Definition compile (p : str) (flag_i : bool) : result pattern :=
  t <- parse {| alts := []; items := [] |} [] p ;;
  Ok {| ignorecase := flag_i; tree := t |}.

(** *** Matching *)

(** The lower-case form of a character: A-Z, and the accented capitals
    of the range 192..222 (215, the multiplication sign, apart). *)
Definition lower (c : ascii) : ascii :=
  let n := nat_of_ascii c in
  if ((65 <=? n) && (n <=? 90))%nat then ascii_of_nat (n + 32)
  else if ((192 <=? n) && (n <=? 222) && negb (n =? 215))%nat
       then ascii_of_nat (n + 32)
  else c.

Definition char_eqb (flag_i : bool) (c d : ascii) : bool :=
  if flag_i then ascii_eqb (lower c) (lower d) else ascii_eqb c d.

Definition newline : ascii := ascii_of_nat 10.

(** Zero or more rounds of [step], from position [i].  A round that
    consumes nothing adds no end position, so only rounds that advance are
    followed; [fuel] bounds their number. *)
Fixpoint star (step : nat -> list nat) (fuel : nat) (i : nat) : list nat :=
  i :: match fuel with
       | O => []
       | S fuel' =>
           flat_map (fun j => if (i <? j)%nat then star step fuel' j else [])
                    (step i)
       end.

Section Matching.
Variable flag_i : bool.
Variable subject : str.

(** [ends r i]: the positions where a match of [r] that starts at
    position [i] of the subject can end. *)
Fixpoint ends (r : regex) (i : nat) : list nat :=
  match r with
  | Eps => [i]
  | Lit c =>
      match nth_error subject i with
      | Some d => if char_eqb flag_i c d then [S i] else []
      | None => []
      end
  | Any =>
      match nth_error subject i with
      | Some d => if ascii_eqb d newline then [] else [S i]
      | None => []
      end
  | Bol => if (i =? 0)%nat then [i] else []
  | Eol =>
      if (i =? length subject)%nat then [i]
      else if (S i =? length subject)%nat then
        match nth_error subject i with
        | Some d => if ascii_eqb d newline then [i] else []
        | None => []
        end
      else []
  | Cat r1 r2 => flat_map (ends r2) (ends r1 i)
  | Alt r1 r2 => ends r1 i ++ ends r2 i
  | Star r1 => star (ends r1) (length subject - i) i
  | Plus r1 =>
      flat_map (fun j => star (ends r1) (length subject - j) j) (ends r1 i)
  | Opt r1 => i :: ends r1 i
  | Group r1 => ends r1 i
  end.

Definition matches_at (r : regex) (i : nat) : bool :=
  match ends r i with [] => false | _ :: _ => true end.

End Matching.

(** The meaning of a pattern, as a relation: [Match flag_i subject r i j]
    holds when [r] matches the part of the subject from position [i] to
    position [j]. *)
Inductive Match (flag_i : bool) (subject : str) : regex -> nat -> nat -> Prop :=
| MEps i : Match flag_i subject Eps i i
| MLit c d i :
    nth_error subject i = Some d -> char_eqb flag_i c d = true ->
    Match flag_i subject (Lit c) i (S i)
| MAny d i :
    nth_error subject i = Some d -> d <> newline ->
    Match flag_i subject Any i (S i)
| MBol : Match flag_i subject Bol O O
| MEolEnd : Match flag_i subject Eol (length subject) (length subject)
| MEolNl i :
    S i = length subject -> nth_error subject i = Some newline ->
    Match flag_i subject Eol i i
| MCat r1 r2 i j k :
    Match flag_i subject r1 i j -> Match flag_i subject r2 j k ->
    Match flag_i subject (Cat r1 r2) i k
| MAltL r1 r2 i j :
    Match flag_i subject r1 i j -> Match flag_i subject (Alt r1 r2) i j
| MAltR r1 r2 i j :
    Match flag_i subject r2 i j -> Match flag_i subject (Alt r1 r2) i j
| MStar0 r i : Match flag_i subject (Star r) i i
| MStarS r i j k :
    Match flag_i subject r i j -> Match flag_i subject (Star r) j k ->
    Match flag_i subject (Star r) i k
| MPlus r i j k :
    Match flag_i subject r i j -> Match flag_i subject (Star r) j k ->
    Match flag_i subject (Plus r) i k
| MOpt0 r i : Match flag_i subject (Opt r) i i
| MOpt1 r i j :
    Match flag_i subject r i j -> Match flag_i subject (Opt r) i j
| MGroup r i j :
    Match flag_i subject r i j -> Match flag_i subject (Group r) i j.

(** The pattern matches somewhere in the line. *)
Definition Found (p : pattern) (line : str) : Prop :=
  exists i j, (i <= length line)%nat
              /\ Match (ignorecase p) line (tree p) i j.

(** The characters with a meaning of their own in a pattern. *)
Definition specials : str := s ".\[{()*+?^$|".

Definition plain (c : ascii) : bool := negb (existsb (ascii_eqb c) specials).

(** [p.search(line)] as a truth value: is there a match anywhere? *)
Definition search (p : pattern) (line : str) : bool :=
  existsb (matches_at (ignorecase p) line (tree p))
          (seq 0 (S (length line))).

End Re.

(** ** Constants *)

Definition ESC : str := [ascii_of_nat 27].
Definition RESET : str := ESC ++ s "[0m".

Definition ESCKEYS : list (str * str) :=
  [ (s "[A", s "up");
    (s "[B", s "down") ].

Definition MAPPINGS : list (str * str) :=
  [ ([ascii_of_nat 14], s "down");          (* ctrl+n *)
    ([ascii_of_nat 16], s "up");            (* ctrl+p *)
    ([ascii_of_nat 4], s "screen down") ].  (* ctrl+d *)

(** The two arrows of the source's text take three characters each here. *)
Definition firstline : str :=
  s "Navigate with ↑ and ↓, `return` exits and prints currently selected line".

(** [d.get(k)]: [None] when the key is absent. *)
Fixpoint dict_get (d : list (str * str)) (k : str) : option str :=
  match d with
  | [] => None
  | (k', v) :: d' => if str_eqb k' k then Some v else dict_get d' k
  end.

(** ** The key decoder *)

(** The terminal's pending input is a list of characters.  [get_input]
    returns the key and the input that is left, or [None] when it blocks,
    waiting for more characters than are pending.  The key itself is
    [None] for an escape sequence that [ESCKEYS] does not know. *)
Definition get_input (tty : str) : option (option str * str) :=
  match tty with
  | [] => None
  | c :: rest =>
      let ch := match dict_get MAPPINGS [c] with Some v => v | None => [c] end in
      if str_eqb ch ESC then
        match rest with
        | a :: b :: rest' => Some (dict_get ESCKEYS [a; b], rest')
        | _ => None
        end
      else Some (Some ch, rest)
  end.

(** ** The renderer *)

(** What [sys.stdout.write] receives: the placement of the cursor at the
    start of a row, or a cell, the text of a row with its colour. *)
Inductive write :=
| Goto (row : Z)
| Cell (color : str) (text : str).

(** The characters that a write sends to the terminal. *)
Definition bytes_of (w : write) : str :=
  match w with
  | Goto row => ESC ++ s "[" ++ format_int row ++ s ";1H"
  | Cell color text =>
      if truthy color then color ++ text ++ RESET else text
  end.

Definition out (line : str) (width : Z) (color : str) : write :=
  Cell color (ljust (slice_to line width) width).

Definition framecolor : str := ESC ++ s "[44m" ++ ESC ++ s "[37m".
Definition highlight : str := ESC ++ s "[47m" ++ ESC ++ s "[34m".

(** The first line of the scrolling body. *)
Definition lower_of (data : list str) (height focus : Z) : Z :=
  if focus + height - 2 >? len data
  then Z.max 0 (len data - height + 2)
  else focus.

(** One turn of the body's [for]: the row [termno] shows line [lineno]. *)
Definition body_row (data : list str) (width focus : Z)
    (termno lineno : Z) : list write :=
  [ Goto termno;
    match py_index data lineno with
    | Ok line => out line width (if lineno =? focus then highlight else [])
    | _ => out [] width []               (* except IndexError *)
    end ].

Fixpoint body (data : list str) (width focus : Z)
    (termno : Z) (linenos : list Z) : list write :=
  match linenos with
  | [] => []
  | lineno :: rest =>
      body_row data width focus termno lineno
      ++ body data width focus (termno + 1) rest
  end.

Definition render (data : list str) (width height focus : Z)
    (lastline : str) : list write :=
  let lower := lower_of data height focus in
  let linenos := py_range lower (lower + height - 2) in
  [Goto 1; out firstline width framecolor]
  ++ body data width focus 2 linenos
  ++ [Goto (2 + len linenos); out lastline width framecolor].

(** ** Focus and filters *)

Definition adjust_focus (data : list str) (focus : Z) (key : str) : Z :=
  if str_eqb key (s "down") && (focus <? len data - 1) then focus + 1
  else if str_eqb key (s "up") && negb (focus =? 0) then focus - 1
  else focus.

Definition filter_fuzzy (data : list str) (string : str)
    : result (list str) :=
  regex <- Re.compile (join (s ".*") (chars string)) true ;;
  Ok (filter (fun line => Re.search regex line) data).

Definition filter_regex (data : list str) (string : str)
    : result (list str) :=
  regex <- Re.compile string false ;;
  Ok (filter (fun line => Re.search regex line) data).

Definition filters
    : list ((list str -> str -> result (list str)) * str) :=
  [ (filter_fuzzy, s "fuzzy");
    (filter_regex, s "regex") ].

(** ** The main loop *)

(** The local variables of the loop; [rprint] is [None] while it is
    [False]. *)
Record state := {
  focus : Z;
  filter_mode : Z;
  search_term : str;
  last_search_term : str;
  mydata : list str;
  rprint : option str
}.

Definition initial (data : list str) : state :=
  {| focus := 0; filter_mode := 0; search_term := [];
     last_search_term := []; mydata := data; rprint := None |}.

(** The refresh of [mydata] at the top of a cycle. *)
Definition refresh (data : list str) (st : state) : result state :=
  entry <- py_index filters (filter_mode st) ;;
  let filter_fun := fst entry in
  if negb (str_eqb (last_search_term st) (search_term st)) then
    mydata' <- filter_fun data (search_term st) ;;
    Ok {| focus := if focus st >? len mydata' then len mydata' - 1
                   else focus st;
          filter_mode := filter_mode st;
          search_term := search_term st;
          last_search_term := search_term st;
          mydata := mydata';
          rprint := rprint st |}
  else Ok st.

Definition lastline_of (st : state) : result str :=
  if truthy (search_term st) then
    entry <- py_index filters (filter_mode st) ;;
    Ok (s "(" ++ snd entry ++ s ") Searching for: " ++ search_term st)
  else Ok (s "Start typeing for search, ctrl-t for switching search mode").

(** Assignments to one local variable. *)
Definition set_focus (v : Z) (st : state) : state :=
  {| focus := v; filter_mode := filter_mode st;
     search_term := search_term st;
     last_search_term := last_search_term st;
     mydata := mydata st; rprint := rprint st |}.

Definition set_filter_mode (v : Z) (st : state) : state :=
  {| focus := focus st; filter_mode := v;
     search_term := search_term st;
     last_search_term := last_search_term st;
     mydata := mydata st; rprint := rprint st |}.

Definition set_search_term (v : str) (st : state) : state :=
  {| focus := focus st; filter_mode := filter_mode st;
     search_term := v;
     last_search_term := last_search_term st;
     mydata := mydata st; rprint := rprint st |}.

Definition set_rprint (v : str) (st : state) : state :=
  {| focus := focus st; filter_mode := filter_mode st;
     search_term := search_term st;
     last_search_term := last_search_term st;
     mydata := mydata st; rprint := Some v |}.

(** What a key does: the loop goes on, or leaves by [break]. *)
Inductive flow := Continue (st : state) | Break (st : state).

(** [key in [a, b, ...]] *)
Definition key_in (key : str) (l : list str) : bool := existsb (str_eqb key) l.

Definition RETURN : str := [ascii_of_nat 13].
Definition NEWLINE : str := [ascii_of_nat 10].
Definition BACKSPACE : str := [ascii_of_nat 127].
Definition CTRL_C : str := [ascii_of_nat 3].
Definition CTRL_T : str := [ascii_of_nat 20].

(** The chain of [if]/[elif] on the key.  No test holds of the key [None],
    which leaves the state as it is. *)
Definition dispatch (st : state) (key : option str) : result flow :=
  match key with
  | None => Ok (Continue st)
  | Some key =>
      if key_in key [s "up"; s "down"] then
        Ok (Continue (set_focus (adjust_focus (mydata st) (focus st) key) st))
      else if key_in key [RETURN; NEWLINE] then
        line <- py_index (mydata st) (focus st) ;;
        Ok (Break (set_rprint line st))
      else if key_in key [BACKSPACE] then
        Ok (Continue (set_search_term (drop_last (search_term st)) st))
      else if key_in key [CTRL_C] then
        Ok (Break st)
      else if key_in key [CTRL_T] then
        Ok (Continue
              (set_filter_mode ((filter_mode st + 1) mod len filters) st))
      else
        Ok (Continue (set_search_term (search_term st ++ key) st))
  end.

(** What the program does, as seen from outside. *)
Inductive event :=
| EvAcquire                                   (* [Console.__enter__] *)
| EvRender (data : list str) (width height focus : Z) (lastline : str)
| EvRelease                                   (* [Console.__exit__] *)
| EvPrint (line : str)                        (* [print], on the old stdout *)
| EvTraceback (e : exn)
| EvExit (code : Z).

Inductive ending :=
| Left (st : state)          (* the loop was left by [break] *)
| Raised (e : exn)           (* an exception left the loop *)
| Waiting (st : state)       (* blocked in [get_input] *)
| Outside                    (* a pattern outside the modelled fragment *)
| NoFuel.

(** One cycle: refresh, footer, render, read a key, act on it. *)
Definition cycle (data : list str) (size : Z * Z) (st : state) (tty : str)
    : list event * (ending + state * str) :=
  match (st1 <- refresh data st ;;
         lastline <- lastline_of st1 ;; Ok (st1, lastline)) with
  | Raise e => ([], inl (Raised e))
  | Unmodelled => ([], inl Outside)
  | Ok (st1, lastline) =>
      let ev := EvRender (mydata st1) (fst size) (snd size) (focus st1)
                         lastline in
      match get_input tty with
      | None => ([ev], inl (Waiting st1))
      | Some (key, tty') =>
          match dispatch st1 key with
          | Ok (Continue st2) => ([ev], inr (st2, tty'))
          | Ok (Break st2) => ([ev], inl (Left st2))
          | Raise e => ([ev], inl (Raised e))
          | Unmodelled => ([ev], inl Outside)
          end
      end
  end.

(** [while True]: the terminal's size at cycle [n] is [size n]. *)
Fixpoint loop (fuel : nat) (data : list str) (size : nat -> Z * Z)
    (n : nat) (st : state) (tty : str) : list event * ending :=
  match fuel with
  | O => ([], NoFuel)
  | S fuel' =>
      match cycle data (size n) st tty with
      | (evs, inl e) => (evs, e)
      | (evs, inr (st', tty')) =>
          let (evs', e) := loop fuel' data size (S n) st' tty' in
          (evs ++ evs', e)
      end
  end.

(** [sys.stdin.readlines()]: every line keeps its newline. *)
Fixpoint readlines_from (cur : str) (text : str) : list str :=
  match text with
  | [] => match cur with [] => [] | _ => [rev cur] end
  | c :: rest =>
      if ascii_eqb c Re.newline then rev (c :: cur) :: readlines_from [] rest
      else readlines_from (c :: cur) rest
  end.

Definition readlines (text : str) : list str := readlines_from [] text.

Fixpoint lstrip_nl (x : str) : str :=
  match x with
  | c :: rest => if ascii_eqb c Re.newline then lstrip_nl rest else x
  | [] => []
  end.

(** [line.strip('\n')] *)
Definition strip_nl (x : str) : str := rev (lstrip_nl (rev (lstrip_nl x))).

(** The whole program: the text piped in (as Python decodes it, its line
    ends already turned into newlines), the sizes of the terminal and the
    characters typed.  Every cycle that goes on consumes a character, so
    the fuel given to the loop is never used up.  An exception that leaves
    the loop passes [Console.__exit__], which releases the terminal and
    does not swallow it: the program ends with a traceback and status 1. *)
Definition main (stdin : str) (size : nat -> Z * Z) (tty : str)
    : list event * ending :=
  let data := map strip_nl (readlines stdin) in
  let (evs, e) := loop (S (length tty)) data size 0 (initial data) tty in
  match e with
  | Left st =>
      (EvAcquire :: evs ++ [EvRelease]
         ++ match rprint st with
            | Some line => if truthy line then [EvPrint line] else []
            | None => []
            end
         ++ [EvExit 0], e)
  | Raised x =>
      (EvAcquire :: evs ++ [EvRelease; EvTraceback x; EvExit 1], e)
  | _ => (EvAcquire :: evs, e)
  end.

Definition const_size (w h : Z) : nat -> Z * Z := fun _ => (w, h).

Definition NL : str := [Re.newline].
Definition CTRL_N : str := [ascii_of_nat 14].
Definition CTRL_D : str := [ascii_of_nat 4].

(** The lines of the specification's scenarios, as piped in. *)
Definition fruit : str :=
  s "apple" ++ NL ++ s "banana" ++ NL ++ s "grape" ++ NL.

(** ** The notions of the specification *)

(** [ci_subseq x line]: the characters of [x] occur in [line] in their
    order, upper and lower case taken as equal, with any text between
    them. *)
Inductive ci_subseq : str -> str -> Prop :=
| ci_done line : ci_subseq [] line
| ci_take c d x line :
    Re.lower c = Re.lower d -> ci_subseq x line ->
    ci_subseq (c :: x) (d :: line)
| ci_skip x d line : ci_subseq x line -> ci_subseq x (d :: line).

Fixpoint ci_subseqb (x line : str) : bool :=
  match x, line with
  | [], _ => true
  | _ :: _, [] => false
  | c :: x', d :: line' =>
      if ascii_eqb (Re.lower c) (Re.lower d) then ci_subseqb x' line'
      else ci_subseqb x line'
  end.

(** The items of the pattern that [filter_fuzzy] builds from a search term
    of plain characters: its characters, with [.*] between them. *)
Fixpoint fuzzy_items (x : str) : list Re.regex :=
  match x with
  | [] => []
  | [c] => [Re.Lit c]
  | c :: x' => Re.Lit c :: Re.Star Re.Any :: fuzzy_items x'
  end.

Definition fuzzy_tree (x : str) : Re.regex :=
  fold_right Re.Cat Re.Eps (fuzzy_items x).

(** A line as the program loads it holds no newline. *)
Definition no_newline (line : str) : Prop := ~ In Re.newline line.

(** The focus points into the view: [0 <= focus <= max(0, len(view)-1)]. *)
Definition focus_in_view (view : list str) (focus : Z) : Prop :=
  0 <= focus <= Z.max 0 (len view - 1).

(** The view is the one that the current filter computes from the lines
    and the search term. *)
Definition view_consistent (data : list str) (st : state) : Prop :=
  exists entry,
    py_index filters (filter_mode st) = Ok entry
    /\ fst entry data (search_term st) = Ok (mydata st).

(** The cells of a frame, one for each row written. *)
Fixpoint cells (ws : list write) : list (str * str) :=
  match ws with
  | [] => []
  | Goto _ :: ws' => cells ws'
  | Cell color text :: ws' => (color, text) :: cells ws'
  end.

(** The cell of the body's row that shows line [lineno]. *)
Definition body_cell (data : list str) (width focus : Z) (lineno : Z)
    : str * str :=
  match py_index data lineno with
  | Ok line => (if lineno =? focus then highlight else [],
                ljust (slice_to line width) width)
  | _ => ([], ljust (slice_to [] width) width)
  end.

(** The events of a run that write to the program's standard output. *)
Fixpoint printed (evs : list event) : list str :=
  match evs with
  | [] => []
  | EvPrint line :: evs' => line :: printed evs'
  | _ :: evs' => printed evs'
  end.

Fixpoint exit_code (evs : list event) : option Z :=
  match evs with
  | [] => None
  | EvExit code :: _ => Some code
  | _ :: evs' => exit_code evs'
  end.

(** Inside the loop the program only renders. *)
Definition is_render (e : event) : Prop :=
  match e with EvRender _ _ _ _ _ => True | _ => False end.

(** The renders of a run: the view and the focus of each. *)
Fixpoint rendered (evs : list event) : list (list str * Z) :=
  match evs with
  | [] => []
  | EvRender data _ _ focus _ :: evs' => (data, focus) :: rendered evs'
  | _ :: evs' => rendered evs'
  end.

(** The rows that the cursor is sent to, in the order of the writes. *)
Fixpoint gotos (ws : list write) : list Z :=
  match ws with
  | [] => []
  | Goto row :: ws' => row :: gotos ws'
  | Cell _ _ :: ws' => gotos ws'
  end.

(** ** The terminal session

    The class [Console].  The file objects, the attributes of the terminal
    and what [tty.setcbreak] does to them belong to the system: they are
    parameters here.  Opening [/dev/tty] and reading its attributes can
    fail, with [OSError]; the writes to the terminal are taken to
    succeed. *)
Module Console.
Section Session.
Variable file : Type.
Variable attributes : Type.
Variable setcbreak : attributes -> attributes.

(** What the session reads and changes: the bindings of the module [sys],
    the attributes of the controlling terminal, and what was written, to
    which file, the first write first. *)
Record system := {
  stdout : file;
  dunder_stdout : file;
  stdin : file;
  dunder_stdin : file;
  tty_attributes : attributes;
  written : list (file * str);
  flushed : list file
}.

(** The attributes of the object: [fd_stdin] is the descriptor of the
    terminal and is not kept. *)
Record console := {
  old_out : file;
  old_in : file;
  old_settings : attributes
}.

Definition SHOW_CURSOR : str := ESC ++ s "[?25h".
Definition HIDE_CURSOR : str := ESC ++ s "[?25l".
Definition ALTERNATE_BUFFER_ON : str := ESC ++ s "7" ++ ESC ++ s "[?47h".
Definition ALTERNATE_BUFFER_OFF : str := ESC ++ s "[?47l" ++ ESC ++ s "8".

(** [sys.stdout.write(text)] *)
Definition stdout_write (text : str) (sys : system) : system :=
  {| stdout := stdout sys; dunder_stdout := dunder_stdout sys;
     stdin := stdin sys; dunder_stdin := dunder_stdin sys;
     tty_attributes := tty_attributes sys;
     written := written sys ++ [(stdout sys, text)];
     flushed := flushed sys |}.

(** [__enter__]: [open_w] and [open_r] are the results of the two calls of
    [open], [getattr] tells whether [termios.tcgetattr] succeeds.  [None]
    stands for [OSError]; the system is returned as the failure leaves
    it. *)
Definition enter (open_w open_r : option file) (getattr : bool)
    (sys : system) : option console * system :=
  match open_w with
  | None => (None, sys)
  | Some w =>
      let sys1 :=
        {| stdout := w; dunder_stdout := w;
           stdin := stdin sys; dunder_stdin := dunder_stdin sys;
           tty_attributes := tty_attributes sys;
           written := written sys; flushed := flushed sys |} in
      match open_r with
      | None => (None, sys1)
      | Some r =>
          let sys2 :=
            {| stdout := w; dunder_stdout := w;
               stdin := r; dunder_stdin := r;
               tty_attributes := tty_attributes sys;
               written := written sys; flushed := flushed sys |} in
          if getattr then
            let self := {| old_out := stdout sys; old_in := stdin sys;
                           old_settings := tty_attributes sys |} in
            let sys3 :=
              {| stdout := w; dunder_stdout := w;
                 stdin := r; dunder_stdin := r;
                 tty_attributes := setcbreak (tty_attributes sys);
                 written := written sys; flushed := flushed sys |} in
            (Some self,
             stdout_write ALTERNATE_BUFFER_ON (stdout_write HIDE_CURSOR sys3))
          else (None, sys2)
      end
  end.

(** [__exit__] *)
Definition exit (self : console) (sys : system) : system :=
  let sys1 :=
    stdout_write ALTERNATE_BUFFER_OFF (stdout_write SHOW_CURSOR sys) in
  {| stdout := old_out self; dunder_stdout := old_out self;
     stdin := old_in self; dunder_stdin := old_in self;
     tty_attributes := old_settings self;
     written := written sys1;
     flushed := flushed sys1 ++ [stdout sys1] |}.

End Session.

Arguments stdout {file attributes} _.
Arguments dunder_stdout {file attributes} _.
Arguments stdin {file attributes} _.
Arguments dunder_stdin {file attributes} _.
Arguments tty_attributes {file attributes} _.
Arguments written {file attributes} _.
Arguments flushed {file attributes} _.
Arguments old_out {file attributes} _.
Arguments old_in {file attributes} _.
Arguments old_settings {file attributes} _.
Arguments stdout_write {file attributes} text sys.
Arguments enter {file attributes} setcbreak open_w open_r getattr sys.
Arguments exit {file attributes} self sys.

(** A system to try the session on: files are numbers (0 and 1 the
    standard input and output), the attributes are one flag, set while
    the terminal is in line mode. *)
Definition sample : system nat bool :=
  {| stdout := 1%nat; dunder_stdout := 1%nat;
     stdin := 0%nat; dunder_stdin := 0%nat;
     tty_attributes := true; written := []; flushed := [] |}.

End Console.

(** * Facts *)

(** ** Strings and lists *)

Lemma ascii_eqb_eq (a b : ascii) : ascii_eqb a b = true <-> a = b.
Proof. unfold ascii_eqb. apply Ascii.eqb_eq. Qed.

Lemma ascii_eqb_neq (a b : ascii) : ascii_eqb a b = false <-> a <> b.
Proof. unfold ascii_eqb. apply Ascii.eqb_neq. Qed.

Lemma str_eqb_eq (a b : str) : str_eqb a b = true <-> a = b.
Proof.
  revert b. induction a as [|x a IH]; intros [|y b]; simpl;
    try (split; [discriminate | discriminate]); try tauto.
  rewrite andb_true_iff, ascii_eqb_eq, IH.
  split; [intros [-> ->]; reflexivity | intros H; inversion H; auto].
Qed.

Lemma str_eqb_refl (a : str) : str_eqb a a = true.
Proof. apply str_eqb_eq. reflexivity. Qed.

Lemma str_eqb_neq (a b : str) : str_eqb a b = false <-> a <> b.
Proof.
  destruct (str_eqb a b) eqn:E.
  - apply str_eqb_eq in E. split; [discriminate | contradiction].
  - split; [|reflexivity]. intros _ H. apply str_eqb_eq in H. congruence.
Qed.

(** ** The matcher computes the relation *)

Section MatcherFacts.
Variable flag_i : bool.
Variable subject : str.

Local Abbreviation M := (Re.Match flag_i subject).
Local Abbreviation ends := (Re.ends flag_i subject).

Lemma star_fuel_mono (step : nat -> list nat) (n m i k : nat) :
  (n <= m)%nat -> In k (Re.star step n i) -> In k (Re.star step m i).
Proof.
  revert m i. induction n as [|n IH]; intros m i Hnm H.
  - destruct H as [<-|[]]. destruct m; simpl; auto.
  - destruct m as [|m]; [lia|]. simpl in *.
    destruct H as [->|H]; [auto|right].
    apply in_flat_map in H. destruct H as (j & Hj & Hk).
    apply in_flat_map. exists j. split; [assumption|].
    destruct (i <? j)%nat; [|assumption].
    apply IH; [lia | assumption].
Qed.

Lemma star_sound (r : Re.regex) :
  (forall i j, In j (ends r i) -> M r i j) ->
  forall n i k, In k (Re.star (ends r) n i) -> M (Re.Star r) i k.
Proof.
  intros IHr. induction n as [|n IH]; intros i k H; simpl in H.
  - destruct H as [<-|[]]. apply Re.MStar0.
  - destruct H as [<-|H]; [apply Re.MStar0|].
    apply in_flat_map in H. destruct H as (j & Hj & Hk).
    destruct (i <? j)%nat; [|destruct Hk].
    eapply Re.MStarS; [apply IHr; eassumption | apply IH; assumption].
Qed.

Lemma ends_sound (r : Re.regex) :
  forall i j, In j (ends r i) -> M r i j.
Proof.
  induction r; intros i j H; cbn [Re.ends] in H.
  - destruct H as [<-|[]]. constructor.
  - destruct (nth_error subject i) as [d|] eqn:E; [|destruct H].
    destruct (Re.char_eqb flag_i c d) eqn:Ec; [|destruct H].
    destruct H as [<-|[]]. econstructor; eassumption.
  - destruct (nth_error subject i) as [d|] eqn:E; [|destruct H].
    destruct (ascii_eqb d Re.newline) eqn:Ec; [destruct H|].
    destruct H as [<-|[]]. econstructor; [eassumption|].
    apply ascii_eqb_neq. assumption.
  - destruct (Nat.eqb_spec i 0); [|destruct H].
    destruct H as [<-|[]]. subst. constructor.
  - destruct (Nat.eqb_spec i (length subject)).
    + destruct H as [<-|[]]. subst. constructor.
    + destruct (Nat.eqb_spec (S i) (length subject)); [|destruct H].
      destruct (nth_error subject i) as [d|] eqn:E; [|destruct H].
      destruct (ascii_eqb d Re.newline) eqn:Ec; [|destruct H].
      apply ascii_eqb_eq in Ec. subst d.
      destruct H as [<-|[]]. apply Re.MEolNl; assumption.
  - apply in_flat_map in H. destruct H as (k & Hk & Hj).
    eapply Re.MCat; [apply IHr1 | apply IHr2]; eassumption.
  - apply in_app_or in H. destruct H as [H|H].
    + apply Re.MAltL. apply IHr1. assumption.
    + apply Re.MAltR. apply IHr2. assumption.
  - eapply star_sound; [exact IHr | exact H].
  - apply in_flat_map in H. destruct H as (k & Hk & Hj).
    eapply Re.MPlus; [apply IHr; eassumption|].
    eapply star_sound; [exact IHr | exact Hj].
  - destruct H as [<-|H]; [apply Re.MOpt0 | apply Re.MOpt1; apply IHr; exact H].
  - apply Re.MGroup. apply IHr. exact H.
Qed.

(** A match goes forward and stays inside the subject. *)
Lemma match_bounds (r : Re.regex) (i j : nat) :
  M r i j -> (i <= j)%nat /\ (i < j -> j <= length subject)%nat.
Proof.
  induction 1; try (split; lia).
  - split; [lia|]. intros _.
    assert (i < length subject)%nat by (apply nth_error_Some; congruence). lia.
  - split; [lia|]. intros _.
    assert (i < length subject)%nat by (apply nth_error_Some; congruence). lia.
Qed.

Lemma ends_complete (r : Re.regex) (i j : nat) :
  M r i j -> In j (ends r i).
Proof.
  induction 1; cbn [Re.ends].
  - simpl; auto.
  - rewrite H, H0. simpl. auto.
  - rewrite H. apply ascii_eqb_neq in H0. rewrite H0. simpl. auto.
  - simpl. auto.
  - rewrite Nat.eqb_refl. simpl. auto.
  - destruct (Nat.eqb_spec i (length subject)); [simpl; auto|].
    rewrite H, Nat.eqb_refl, H0.
    replace (ascii_eqb Re.newline Re.newline) with true
      by (symmetry; apply ascii_eqb_eq; reflexivity).
    simpl. auto.
  - apply in_flat_map. exists j. split; assumption.
  - apply in_or_app. left. assumption.
  - apply in_or_app. right. assumption.
  - destruct (length subject - i)%nat; simpl; auto.
  - cbn [Re.ends] in IHMatch2.
    destruct (Nat.eq_dec i j) as [->|Hij]; [exact IHMatch2|].
    apply match_bounds in H. destruct H as [Hle Hin].
    assert (Hj : (j <= length subject)%nat) by (apply Hin; lia).
    destruct (length subject - i)%nat as [|n] eqn:En; [lia|].
    simpl. right. apply in_flat_map. exists j. split; [assumption|].
    replace (i <? j)%nat with true by (symmetry; apply Nat.ltb_lt; lia).
    eapply star_fuel_mono; [|exact IHMatch2]. lia.
  - cbn [Re.ends] in IHMatch2. apply in_flat_map. exists j.
    split; assumption.
  - left. reflexivity.
  - right. assumption.
  - assumption.
Qed.

Lemma match_cat_inv (r1 r2 : Re.regex) (i k : nat) :
  M (Re.Cat r1 r2) i k -> exists j, M r1 i j /\ M r2 j k.
Proof. intros H. inversion H; subst. eauto. Qed.

Lemma match_lit_inv (c : ascii) (i j : nat) :
  M (Re.Lit c) i j ->
  j = S i /\ exists d, nth_error subject i = Some d
                       /\ Re.char_eqb flag_i c d = true.
Proof. intros H. inversion H; subst. eauto. Qed.

Lemma matches_at_spec (r : Re.regex) (i : nat) :
  Re.matches_at flag_i subject r i = true <-> exists j, M r i j.
Proof.
  unfold Re.matches_at. split.
  - destruct (Re.ends flag_i subject r i) as [|j l] eqn:E; [discriminate|].
    intros _. exists j. apply ends_sound. rewrite E. left. reflexivity.
  - intros [j Hj]. apply ends_complete in Hj.
    destruct (Re.ends flag_i subject r i); [destruct Hj | reflexivity].
Qed.

End MatcherFacts.

Lemma search_spec (p : Re.pattern) (line : str) :
  Re.search p line = true <-> Re.Found p line.
Proof.
  unfold Re.search, Re.Found. rewrite existsb_exists. split.
  - intros (i & Hi & Hm). apply in_seq in Hi.
    apply matches_at_spec in Hm. destruct Hm as [j Hj].
    exists i, j. split; [lia | assumption].
  - intros (i & j & Hi & Hm). exists i. split; [apply in_seq; lia|].
    apply matches_at_spec. exists j. assumption.
Qed.

(** ** Patterns of plain characters *)

Lemma plain_not_special (c d : ascii) :
  Re.plain c = true -> In d Re.specials -> ascii_eqb c d = false.
Proof.
  unfold Re.plain. intros H Hd.
  destruct (ascii_eqb c d) eqn:E; [|reflexivity].
  apply negb_true_iff in H.
  assert (existsb (ascii_eqb c) Re.specials = true)
    by (apply existsb_exists; exists d; split; assumption).
  congruence.
Qed.

Lemma parse_plain (c : ascii) (st : Re.frame) (stack : list Re.frame) (rest : str) :
  Re.plain c = true ->
  Re.parse st stack (c :: rest) = Re.parse (Re.push_item (Re.Lit c) st) stack rest.
Proof.
  intros H. cbn [Re.parse].
  repeat (rewrite (plain_not_special c _ H) by (vm_compute; tauto)).
  reflexivity.
Qed.

Lemma parse_dot_star (st : Re.frame) (stack : list Re.frame) (rest : str) :
  Re.parse st stack (s ".*" ++ rest)
  = Re.parse (Re.push_item (Re.Star Re.Any) st) stack rest.
Proof. destruct st. reflexivity. Qed.

Lemma parse_fuzzy (x : str) :
  Forall (fun c => Re.plain c = true) x ->
  forall a it,
    Re.parse {| Re.alts := a; Re.items := it |} [] (join (s ".*") (chars x))
    = Ok (Re.close {| Re.alts := a; Re.items := rev (fuzzy_items x) ++ it |}).
Proof.
  induction 1 as [|c x Hc Hx IH]; intros a it; [reflexivity|].
  destruct x as [|c' x].
  - cbn [chars map join]. rewrite parse_plain by assumption. reflexivity.
  - change (join (s ".*") (chars (c :: c' :: x)))
      with (c :: s ".*" ++ join (s ".*") (chars (c' :: x))).
    rewrite parse_plain by assumption.
    rewrite parse_dot_star. unfold Re.push_item. cbn [Re.alts Re.items].
    rewrite IH. do 2 f_equal.
    change (fuzzy_items (c :: c' :: x))
      with (Re.Lit c :: Re.Star Re.Any :: fuzzy_items (c' :: x)).
    cbn [rev]. rewrite <- !app_assoc. reflexivity.
Qed.

Lemma compile_fuzzy (x : str) :
  Forall (fun c => Re.plain c = true) x ->
  Re.compile (join (s ".*") (chars x)) true
  = Ok {| Re.ignorecase := true; Re.tree := fuzzy_tree x |}.
Proof.
  intros H. unfold Re.compile. rewrite parse_fuzzy by assumption.
  cbn [bind]. do 2 f_equal.
  unfold Re.close, Re.seq_of, fuzzy_tree. cbn [Re.alts Re.items app Re.alt_of].
  rewrite app_nil_r.
  rewrite <- (rev_involutive (fuzzy_items x)) at 2.
  symmetry. apply fold_left_rev_right.
Qed.

(** ** Subsequences *)

Lemma ci_subseq_skipn (x line : str) (k : nat) :
  ci_subseq x (skipn k line) -> ci_subseq x line.
Proof.
  revert line. induction k as [|k IH]; intros line H; [exact H|].
  destruct line as [|d line]; [exact H|].
  apply ci_skip. apply IH. exact H.
Qed.

Lemma ci_subseq_skipn_le (x line : str) (k k' : nat) :
  (k' <= k)%nat -> ci_subseq x (skipn k line) -> ci_subseq x (skipn k' line).
Proof.
  intros Hk H. replace k with ((k - k') + k')%nat in H by lia.
  rewrite <- skipn_skipn in H. eapply ci_subseq_skipn. exact H.
Qed.

Lemma skipn_nth_error {A} (l : list A) (i : nat) (d : A) :
  nth_error l i = Some d -> skipn i l = d :: skipn (S i) l.
Proof.
  revert l. induction i as [|i IH]; intros [|a l] H; try discriminate.
  - inversion H. reflexivity.
  - simpl in H. apply IH in H. exact H.
Qed.

Lemma ci_subseq_first (c : ascii) (x line : str) :
  ci_subseq (c :: x) line ->
  exists k d, nth_error line k = Some d /\ Re.lower c = Re.lower d
              /\ ci_subseq x (skipn (S k) line).
Proof.
  induction line as [|e line IH]; intros H; inversion H; subst.
  - exists O, e. auto.
  - destruct (IH H2) as (k & d & Hk & Hl & Hs).
    exists (S k), d. auto.
Qed.

Lemma ci_subseqb_drop (line : str) :
  forall x c, ci_subseqb (c :: x) line = true -> ci_subseqb x line = true.
Proof.
  assert (W : forall l : str,
             (forall x c, ci_subseqb (c :: x) l = true -> ci_subseqb x l = true) ->
             forall x d, ci_subseqb x l = true -> ci_subseqb x (d :: l) = true).
  { intros l P [|c x] d H; [reflexivity|]. simpl.
    destruct (ascii_eqb (Re.lower c) (Re.lower d)); [eapply P; exact H | exact H]. }
  induction line as [|d line IH]; intros x c H; [discriminate|].
  simpl in H. destruct (ascii_eqb (Re.lower c) (Re.lower d)).
  - apply W; assumption.
  - apply W; [assumption|]. eapply IH. exact H.
Qed.

Lemma ci_subseqb_spec (x line : str) :
  ci_subseqb x line = true <-> ci_subseq x line.
Proof.
  split.
  - revert x. induction line as [|d line IH]; intros [|c x] H;
      try apply ci_done; try discriminate.
    simpl in H. destruct (ascii_eqb (Re.lower c) (Re.lower d)) eqn:E.
    + apply ci_take; [apply ascii_eqb_eq; exact E | apply IH; exact H].
    + apply ci_skip. apply IH. exact H.
  - induction 1 as [line | c d x line Hc _ IH | x d line _ IH].
    + destruct line; reflexivity.
    + simpl. apply ascii_eqb_eq in Hc. rewrite Hc. exact IH.
    + destruct x as [|c x]; [reflexivity|]. simpl.
      destruct (ascii_eqb (Re.lower c) (Re.lower d)); [|exact IH].
      eapply ci_subseqb_drop. exact IH.
Qed.

(** ** What the fuzzy pattern matches *)

Section FuzzyFacts.
Variable line : str.
Hypothesis line_ok : no_newline line.

Local Abbreviation M := (Re.Match true line).

Lemma star_any (i k : nat) :
  (i <= k <= length line)%nat -> M (Re.Star Re.Any) i k.
Proof.
  intros H. remember (k - i)%nat as n eqn:En. revert i H En.
  induction n as [|n IH]; intros i H En.
  - replace k with i by lia. apply Re.MStar0.
  - destruct (nth_error line i) as [d|] eqn:E.
    + apply Re.MStarS with (j := S i); [|apply IH; lia].
      apply Re.MAny with (d := d); [exact E|].
      intros ->. apply line_ok. eapply nth_error_In. exact E.
    + apply nth_error_None in E. lia.
Qed.

Lemma fuzzy_match (x : str) :
  forall c i,
    (exists j, M (fuzzy_tree (c :: x)) i j)
    <-> exists d, nth_error line i = Some d /\ Re.lower c = Re.lower d
                  /\ ci_subseq x (skipn (S i) line).
Proof.
  induction x as [|c' x IH]; intros c i.
  - split.
    + intros [j H]. apply match_cat_inv in H. destruct H as (k & H & _).
      apply match_lit_inv in H. destruct H as (_ & d & Hd & Hc).
      exists d. repeat split; [assumption | | constructor].
      apply ascii_eqb_eq. assumption.
    + intros (d & Hd & Hc & _). exists (S i).
      apply Re.MCat with (j := S i); [|constructor].
      apply Re.MLit with (d := d); [assumption|].
      apply ascii_eqb_eq. assumption.
  - change (fuzzy_tree (c :: c' :: x))
      with (Re.Cat (Re.Lit c)
              (Re.Cat (Re.Star Re.Any) (fuzzy_tree (c' :: x)))).
    split.
    + intros [j H]. apply match_cat_inv in H. destruct H as (k & H & H').
      apply match_lit_inv in H. destruct H as (-> & d & Hd & Hc).
      apply match_cat_inv in H'. destruct H' as (j0 & Hstar & Hrest).
      assert (Hx : exists j, M (fuzzy_tree (c' :: x)) j0 j) by eauto.
      apply IH in Hx. destruct Hx as (d' & Hd' & Hc' & Hs).
      exists d. repeat split; [assumption | apply ascii_eqb_eq; assumption |].
      apply (match_bounds true line) in Hstar. destruct Hstar as [Hle _].
      apply ci_subseq_skipn_le with (k := j0); [exact Hle|].
      rewrite (skipn_nth_error _ _ _ Hd'). apply ci_take; assumption.
    + intros (d & Hd & Hc & Hs).
      apply ci_subseq_first in Hs. destruct Hs as (k & d' & Hk & Hc' & Hs).
      rewrite nth_error_skipn in Hk. rewrite skipn_skipn in Hs.
      assert (Hx : exists j, M (fuzzy_tree (c' :: x)) (S i + k)%nat j).
      { apply IH. exists d'. repeat split; try assumption.
        replace (S (S i + k)) with (S k + S i)%nat by lia. exact Hs. }
      destruct Hx as [j Hj]. exists j.
      apply Re.MCat with (j := S i);
        [apply Re.MLit with (d := d); [assumption | apply ascii_eqb_eq; assumption]|].
      apply Re.MCat with (j := (S i + k)%nat); [|exact Hj].
      apply star_any. split; [lia|].
      assert (S i + k < length line)%nat by (apply nth_error_Some; congruence).
      lia.
Qed.

Lemma fuzzy_found (x : str) :
  Re.Found {| Re.ignorecase := true; Re.tree := fuzzy_tree x |} line
  <-> ci_subseq x line.
Proof.
  unfold Re.Found. cbn [Re.ignorecase Re.tree].
  destruct x as [|c x].
  - split; [constructor|]. intros _. exists O, O. split; [lia | constructor].
  - split.
    + intros (i & j & _ & H).
      assert (Hx : exists j, M (fuzzy_tree (c :: x)) i j) by eauto.
      apply fuzzy_match in Hx. destruct Hx as (d & Hd & Hc & Hs).
      apply ci_subseq_skipn with (k := i).
      rewrite (skipn_nth_error _ _ _ Hd). apply ci_take; assumption.
    + intros H. apply ci_subseq_first in H.
      destruct H as (k & d & Hk & Hc & Hs).
      assert (Hx : exists j, M (fuzzy_tree (c :: x)) k j)
        by (apply fuzzy_match; eauto).
      destruct Hx as [j Hj]. exists k, j. split; [|exact Hj].
      assert (k < length line)%nat by (apply nth_error_Some; congruence).
      lia.
Qed.

End FuzzyFacts.

(** ** The filters *)

Lemma filter_all {A} (f : A -> bool) (l : list A) :
  (forall a, In a l -> f a = true) -> filter f l = l.
Proof.
  induction l as [|a l IH]; intros H; [reflexivity|]. simpl.
  rewrite (H a) by (left; reflexivity).
  f_equal. apply IH. intros b Hb. apply H. right. exact Hb.
Qed.

(** C7: with the empty search term the fuzzy filter returns the line list
    as it is, every line kept, in its order. *)
Theorem filter_fuzzy_empty_term (L : list str) :
  filter_fuzzy L [] = Ok L.
Proof.
  unfold filter_fuzzy. cbn [chars map join].
  change (Re.compile [] true)
    with (Ok {| Re.ignorecase := true; Re.tree := Re.Eps |}).
  cbn [bind]. f_equal. apply filter_all. intros line _.
  apply search_spec. exists O, O. split; [lia | constructor].
Qed.

(** C5, as amended: for a search term made of plain characters (none of
    [.\[{()*+?^$|]) and lines that hold no newline, the fuzzy filter keeps,
    in their order, exactly the lines that contain the characters of the
    term as a case-insensitive subsequence: every line of the result does,
    and no line of [L] outside the result does. *)
Theorem filter_fuzzy_plain_subsequence (L : list str) (x : str) :
  Forall (fun c => Re.plain c = true) x ->
  Forall no_newline L ->
  exists view,
    filter_fuzzy L x = Ok view
    /\ view = filter (ci_subseqb x) L
    /\ (forall line, In line view -> In line L /\ ci_subseq x line)
    /\ (forall line, In line L -> ~ In line view -> ~ ci_subseq x line).
Proof.
  intros Hx HL. exists (filter (ci_subseqb x) L).
  assert (Hs : forall line, In line L ->
            Re.search {| Re.ignorecase := true; Re.tree := fuzzy_tree x |} line
            = ci_subseqb x line).
  { intros line Hin. rewrite Forall_forall in HL.
    apply eq_true_iff_eq.
    rewrite search_spec, ci_subseqb_spec.
    apply fuzzy_found. apply HL. exact Hin. }
  repeat split.
  - unfold filter_fuzzy. rewrite compile_fuzzy by assumption. cbn [bind].
    f_equal. apply filter_ext_in. exact Hs.
  - apply filter_In in H. tauto.
  - apply filter_In in H. apply ci_subseqb_spec. tauto.
  - intros line Hin Hout Hsub. apply Hout. apply filter_In.
    split; [exact Hin | apply ci_subseqb_spec; exact Hsub].
Qed.

(** The scenario of the specification: "ap" keeps apple and grape. *)
Lemma filter_fuzzy_plain_subsequence_witness :
  filter_fuzzy [s "apple"; s "banana"; s "grape"] (s "ap")
  = Ok [s "apple"; s "grape"].
Proof.
  destruct (filter_fuzzy_plain_subsequence
              [s "apple"; s "banana"; s "grape"] (s "ap"))
    as (view & Hview & Heq & _).
  - repeat constructor.
  - repeat constructor; intros H; vm_compute in H; 
      repeat (destruct H as [H|H]; [discriminate|]); exact H.
  - rewrite Hview, Heq. reflexivity.
Defined.

(** C5 as stated fails: the term [.] is read as a pattern, so the line
    [a] is kept although it contains no [.]. *)
Lemma filter_fuzzy_dot_counterexample :
  filter_fuzzy [s "a"] (s ".") = Ok [s "a"]
  /\ ~ ci_subseq (s ".") (s "a").
Proof.
  split; [reflexivity|].
  intros H. apply ci_subseqb_spec in H. discriminate.
Qed.

(** C4, as amended: in regex mode the term is compiled without the flag
    [re.I], as a case-sensitive regular expression, and a line is kept,
    in its order, exactly when the expression matches somewhere in it. *)
Theorem filter_regex_case_sensitive (L : list str) (x : str) (p : Re.pattern) :
  Re.compile x false = Ok p ->
  Re.ignorecase p = false
  /\ filter_regex L x = Ok (filter (Re.search p) L)
  /\ (forall line, In line (filter (Re.search p) L)
                   <-> In line L /\ Re.Found p line).
Proof.
  intros H. repeat split.
  - unfold Re.compile in H.
    destruct (Re.parse _ _ x); inversion H. reflexivity.
  - unfold filter_regex. rewrite H. reflexivity.
  - apply filter_In in H0. tauto.
  - apply filter_In in H0. apply search_spec. tauto.
  - intros [Hin Hf]. apply filter_In. split; [exact Hin|].
    apply search_spec. exact Hf.
Qed.

(** The scenario of the specification: [^b] keeps banana. *)
Lemma filter_regex_case_sensitive_witness :
  filter_regex [s "apple"; s "banana"; s "grape"] (s "^b") = Ok [s "banana"].
Proof.
  destruct (filter_regex_case_sensitive
              [s "apple"; s "banana"; s "grape"] (s "^b")
              {| Re.ignorecase := false;
                 Re.tree := Re.Cat Re.Bol (Re.Cat (Re.Lit "b") Re.Eps) |}
              eq_refl)
    as (_ & H & _).
  rewrite H. reflexivity.
Defined.

(** C4 as stated fails: the pattern [a] with [re.I] matches [Apple], but
    [filter_regex] drops that line. *)
Lemma filter_regex_case_counterexample :
  filter_regex [s "Apple"] (s "a") = Ok []
  /\ (p <- Re.compile (s "a") true ;; Ok (filter (Re.search p) [s "Apple"]))
     = Ok [s "Apple"].
Proof. split; reflexivity. Qed.

(** ** The loop *)

Lemma get_input_shorter (tty tty' : str) (key : option str) :
  get_input tty = Some (key, tty') -> (length tty' < length tty)%nat.
Proof.
  unfold get_input. destruct tty as [|c rest]; [discriminate|].
  destruct (str_eqb _ ESC).
  - destruct rest as [|a [|b rest']]; try discriminate.
    intros H. inversion H; subst. simpl. lia.
  - intros H. inversion H; subst. simpl. lia.
Qed.

Lemma cycle_next (data : list str) (size : Z * Z) (st st' : state)
    (tty tty' : str) (evs : list event) :
  cycle data size st tty = (evs, inr (st', tty')) ->
  (length tty' < length tty)%nat
  /\ Forall is_render evs
  /\ exists st1 key,
       refresh data st = Ok st1 /\ dispatch st1 key = Ok (Continue st').
Proof.
  unfold cycle. destruct (refresh data st) as [st1| |]; cbn [bind];
    try discriminate.
  destruct (lastline_of st1) as [lastline| |]; cbn [bind]; try discriminate.
  destruct (get_input tty) as [[key rest]|] eqn:Ein; try discriminate.
  destruct (dispatch st1 key) as [[st2|st2]| |] eqn:Ed; try discriminate.
  intros H. inversion H; subst. split; [|split].
  - eapply get_input_shorter. exact Ein.
  - repeat constructor.
  - exists st1, key. auto.
Qed.

Lemma cycle_left (data : list str) (size : Z * Z) (st st' : state)
    (tty : str) (evs : list event) :
  cycle data size st tty = (evs, inl (Left st')) ->
  exists st1 key lastline,
    refresh data st = Ok st1
    /\ dispatch st1 (Some key) = Ok (Break st')
    /\ evs = [EvRender (mydata st1) (fst size) (snd size) (focus st1) lastline].
Proof.
  unfold cycle. destruct (refresh data st) as [st1| |]; cbn [bind];
    try discriminate.
  destruct (lastline_of st1) as [lastline| |]; cbn [bind]; try discriminate.
  destruct (get_input tty) as [[key rest]|] eqn:Ein; try discriminate.
  destruct (dispatch st1 key) as [[st2|st2]| |] eqn:Ed; try discriminate.
  intros H. inversion H; subst.
  destruct key as [key|]; [|discriminate].
  exists st1, key, lastline. auto.
Qed.


Lemma refresh_rprint (data : list str) (st st1 : state) :
  refresh data st = Ok st1 -> rprint st1 = rprint st.
Proof.
  unfold refresh. destruct (py_index filters (filter_mode st)) as [entry| |];
    cbn [bind]; try discriminate.
  destruct (negb _).
  - destruct (fst entry data (search_term st)); cbn [bind]; try discriminate.
    intros H. inversion H. reflexivity.
  - intros H. inversion H. reflexivity.
Qed.

Lemma dispatch_continue_rprint (st st' : state) (key : option str) :
  dispatch st key = Ok (Continue st') -> rprint st' = rprint st.
Proof.
  unfold dispatch. destruct key as [key|]; [|intros H; inversion H; reflexivity].
  repeat match goal with
         | |- context [if ?b then _ else _] => destruct b
         end;
    try (intros H; inversion H; reflexivity).
  destruct (py_index (mydata st) (focus st)); cbn [bind]; discriminate.
Qed.

(** A loop left by [break]: its last event is the render of the state
    that the breaking key was applied to, and it did nothing but render. *)
Lemma loop_left (fuel : nat) (data : list str) (size : nat -> Z * Z) :
  forall n st0 tty evs st,
    loop fuel data size n st0 tty = (evs, Left st) ->
    rprint st0 = None ->
    Forall is_render evs
    /\ exists st1 key evs0 w h lastline,
         dispatch st1 (Some key) = Ok (Break st)
         /\ rprint st1 = None
         /\ evs = evs0 ++ [EvRender (mydata st1) w h (focus st1) lastline].
Proof.
  induction fuel as [|fuel IH]; intros n st0 tty evs st H Hr; [discriminate|].
  cbn [loop] in H.
  destruct (cycle data (size n) st0 tty) as [evs0 [e|[st' tty']]] eqn:Ec.
  - inversion H; subst. apply cycle_left in Ec.
    destruct Ec as (st1 & key & lastline & Hre & Hd & ->).
    split; [repeat constructor|].
    exists st1, key, [], (fst (size n)), (snd (size n)), lastline.
    repeat split; [exact Hd|].
    rewrite (refresh_rprint _ _ _ Hre). exact Hr.
  - apply cycle_next in Ec. destruct Ec as (_ & Hev & st1 & key & Hre & Hd).
    destruct (loop fuel data size (S n) st' tty') as [evs' e'] eqn:El.
    inversion H; subst.
    apply IH in El.
    + destruct El as (Hev' & st2 & key' & evs1 & w & h & lastline & Hd' & Hr' & ->).
      split; [apply Forall_app; split; assumption|].
      exists st2, key', (evs0 ++ evs1), w, h, lastline.
      repeat split; try assumption. apply app_assoc.
    + rewrite (dispatch_continue_rprint _ _ _ Hd).
      rewrite (refresh_rprint _ _ _ Hre). exact Hr.
Qed.

Lemma key_in_cases (key : str) (l : list str) :
  key_in key l = true -> In key l.
Proof.
  unfold key_in. rewrite existsb_exists. intros (x & Hx & He).
  apply str_eqb_eq in He. subst. exact Hx.
Qed.

(** Only the return keys and ctrl-c leave the loop. *)
Lemma dispatch_break (st st' : state) (key : str) :
  dispatch st (Some key) = Ok (Break st') ->
  (key_in key [RETURN; NEWLINE] = true
   /\ exists line, py_index (mydata st) (focus st) = Ok line
                   /\ st' = set_rprint line st)
  \/ (key = CTRL_C /\ st' = st).
Proof.
  unfold dispatch.
  destruct (key_in key [s "up"; s "down"]); [discriminate|].
  destruct (key_in key [RETURN; NEWLINE]) eqn:Eret.
  - destruct (py_index (mydata st) (focus st)) as [line| |]; cbn [bind];
      try discriminate.
    intros H. inversion H. left. split; [reflexivity|]. exists line. auto.
  - destruct (key_in key [BACKSPACE]); [discriminate|].
    destruct (key_in key [CTRL_C]) eqn:Ec.
    + intros H. inversion H. right. split; [|reflexivity].
      apply key_in_cases in Ec. destruct Ec as [<-|[]]. reflexivity.
    + destruct (key_in key [CTRL_T]); discriminate.
Qed.

(** C6, as amended: when the loop is left, it is by a return key or by
    ctrl-c, applied to the state of the last render.  On a return key the
    line at the focus of that view is taken and, when that line is not
    empty, it is the one line printed, after the release of the terminal
    session; on ctrl-c nothing is printed; the exit status is 0 in both
    cases. *)
Theorem selection_or_cancellation (stdin : str) (size : nat -> Z * Z)
    (tty : str) (evs : list event) (st : state) :
  loop (S (length tty)) (map strip_nl (readlines stdin)) size 0
       (initial (map strip_nl (readlines stdin))) tty = (evs, Left st) ->
  exists st1 key evs0 w h lastline,
    evs = evs0 ++ [EvRender (mydata st1) w h (focus st1) lastline]
    /\ Forall is_render evs
    /\ dispatch st1 (Some key) = Ok (Break st)
    /\ (key_in key [RETURN; NEWLINE] = true \/ key = CTRL_C)
    /\ (key_in key [RETURN; NEWLINE] = true ->
        exists line,
          py_index (mydata st1) (focus st1) = Ok line
          /\ (line <> [] ->
              fst (main stdin size tty)
              = EvAcquire :: evs ++ [EvRelease; EvPrint line; EvExit 0]))
    /\ (key = CTRL_C ->
        fst (main stdin size tty) = EvAcquire :: evs ++ [EvRelease; EvExit 0]).
Proof.
  intros Hloop.
  destruct (loop_left _ _ _ _ _ _ _ _ Hloop eq_refl)
    as (Hev & st1 & key & evs0 & w & h & lastline & Hd & Hr & Hevs).
  exists st1, key, evs0, w, h, lastline.
  assert (Hmain : fst (main stdin size tty)
                  = EvAcquire :: evs ++ [EvRelease]
                      ++ match rprint st with
                         | Some line => if truthy line then [EvPrint line] else []
                         | None => []
                         end ++ [EvExit 0]).
  { unfold main. rewrite Hloop. reflexivity. }
  destruct (dispatch_break _ _ _ Hd) as [(Hk & line & Hline & Hst)|(Hk & Hst)].
  - repeat split; try assumption; [left; exact Hk | |].
    + intros _. exists line. split; [exact Hline|]. intros Hne.
      rewrite Hmain, Hst. cbn [rprint set_rprint].
      destruct line; [congruence|reflexivity].
    + intros ->. discriminate.
  - repeat split; try assumption; [right; exact Hk | |].
    + intros Hk'. subst key. discriminate.
    + intros _. rewrite Hmain, Hst, Hr. reflexivity.
Qed.

(** The scenario of the specification: "ap", down, return prints grape. *)
Lemma selection_or_cancellation_witness :
  exists evs st,
    loop (S (length (s "ap" ++ CTRL_N ++ RETURN)))
         (map strip_nl (readlines fruit)) (const_size 80 24) 0
         (initial (map strip_nl (readlines fruit)))
         (s "ap" ++ CTRL_N ++ RETURN) = (evs, Left st)
    /\ printed (fst (main fruit (const_size 80 24) (s "ap" ++ CTRL_N ++ RETURN)))
       = [s "grape"]
    /\ exists st1 key evs0 w h lastline,
        evs = evs0 ++ [EvRender (mydata st1) w h (focus st1) lastline]
        /\ Forall is_render evs
        /\ dispatch st1 (Some key) = Ok (Break st)
        /\ (key_in key [RETURN; NEWLINE] = true \/ key = CTRL_C)
        /\ (key_in key [RETURN; NEWLINE] = true ->
            exists line,
              py_index (mydata st1) (focus st1) = Ok line
              /\ (line <> [] ->
                  fst (main fruit (const_size 80 24) (s "ap" ++ CTRL_N ++ RETURN))
                  = EvAcquire :: evs ++ [EvRelease; EvPrint line; EvExit 0]))
        /\ (key = CTRL_C ->
            fst (main fruit (const_size 80 24) (s "ap" ++ CTRL_N ++ RETURN))
            = EvAcquire :: evs ++ [EvRelease; EvExit 0]).
Proof.
  eexists. eexists. split; [vm_compute; reflexivity|].
  split; [reflexivity|].
  apply selection_or_cancellation. vm_compute. reflexivity.
Defined.

(** C6 as stated fails: on the input of one empty line, return selects
    that line, and nothing is printed. *)
Lemma empty_line_selection_counterexample :
  exists evs st,
    main NL (const_size 80 24) RETURN = (evs, Left st)
    /\ py_index (mydata st) (focus st) = Ok []
    /\ rprint st = Some []
    /\ printed evs = []
    /\ exit_code evs = Some 0.
Proof. eexists. eexists. repeat split. Qed.

(** C1 fails on the code (the clamp of [refresh] tests [focus > len] and
    so misses [focus = len]; on an empty view it sets the focus to -1).
    Two lines [a] and [ab], ctrl-n, then [b]: the view shrinks to [ab] and
    is rendered with the focus at 1.  Two lines [a] and [b], ctrl-n, then
    [x]: the empty view is rendered with the focus at -1. *)
Theorem focus_leaves_view_after_shrink :
  (exists evs st,
     main (s "a" ++ NL ++ s "ab" ++ NL) (const_size 80 24) (CTRL_N ++ s "b")
     = (evs, Waiting st)
     /\ last (rendered evs) ([], 0) = ([s "ab"], 1)
     /\ ~ focus_in_view [s "ab"] 1)
  /\ (exists evs st,
        main (s "a" ++ NL ++ s "b" ++ NL) (const_size 80 24) (CTRL_N ++ s "x")
        = (evs, Waiting st)
        /\ last (rendered evs) ([], 0) = ([], -1)
        /\ ~ focus_in_view [] (-1)).
Proof.
  split; eexists; eexists; (split; [vm_compute; reflexivity|]);
    (split; [reflexivity|]); unfold focus_in_view, len; simpl; lia.
Qed.

(** C2, as amended: for every line list, a pattern that [re.compile]
    rejects makes [filter_regex] raise [re.error]; nothing catches it: the
    cycle that refreshes the view with such a search term in regex mode
    ends the loop with that exception, before it renders or reads a key;
    and a loop left by that exception ends the program, after the release
    of the terminal, with a traceback and the exit status 1. *)
Theorem invalid_pattern_raises (data : list str) (x : str) :
  Re.compile x false = Raise ReError ->
  filter_regex data x = Raise ReError
  /\ (forall size st tty fuel n,
        filter_mode st = 1 -> search_term st = x -> last_search_term st <> x ->
        cycle data (size n) st tty = ([], inl (Raised ReError))
        /\ loop (S fuel) data size n st tty = ([], Raised ReError))
  /\ (forall stdin size tty evs,
        loop (S (length tty)) (map strip_nl (readlines stdin)) size 0
             (initial (map strip_nl (readlines stdin))) tty
        = (evs, Raised ReError) ->
        main stdin size tty
        = (EvAcquire :: evs ++ [EvRelease; EvTraceback ReError; EvExit 1],
           Raised ReError)).
Proof.
  intros H.
  assert (Hf : filter_regex data x = Raise ReError)
    by (unfold filter_regex; rewrite H; reflexivity).
  split; [exact Hf|].
  split; [|intros stdin size tty evs Hl; unfold main; rewrite Hl; reflexivity].
  intros size st tty fuel n Hm Hs Hl.
  assert (Hc : cycle data (size n) st tty = ([], inl (Raised ReError))).
  { unfold cycle, refresh. rewrite Hm, Hs.
    change (py_index filters 1) with (Ok (filter_regex, s "regex")).
    cbn [bind fst]. apply str_eqb_neq in Hl. rewrite Hl. cbn [negb].
    rewrite Hf. reflexivity. }
  split; [exact Hc|]. cbn [loop]. rewrite Hc. reflexivity.
Qed.

Lemma invalid_pattern_raises_witness :
  Re.compile (s "(") false = Raise ReError
  /\ filter_regex [s "a"] (s "(") = Raise ReError.
Proof.
  split; [reflexivity|].
  apply (invalid_pattern_raises [s "a"] (s "(")). reflexivity.
Defined.

(** C2 as stated fails: in regex mode the key [(] ends the program with a
    traceback; the key typed after it is never read. *)
Lemma invalid_pattern_counterexample :
  filter_regex [s "a"] (s "(") = Raise ReError
  /\ main (s "a" ++ NL) (const_size 80 24) (CTRL_T ++ s "(" ++ s "a")
     = ([EvAcquire;
         EvRender [s "a"] 80 24 0
           (s "Start typeing for search, ctrl-t for switching search mode");
         EvRender [s "a"] 80 24 0
           (s "Start typeing for search, ctrl-t for switching search mode");
         EvRelease; EvTraceback ReError; EvExit 1],
        Raised ReError).
Proof. split; reflexivity. Qed.

(** C3, as amended: the view is recomputed, by the filter of the current
    mode, exactly when the search term differs from the term of the last
    computation.  The toggle key only advances the filter mode: the view,
    the search term and the term of the last computation stay as they are,
    so the next cycle does not recompute. *)
Theorem view_refreshed_on_term_change_only (data : list str) (st : state) :
  0 <= filter_mode st < 2 ->
  (search_term st = last_search_term st -> refresh data st = Ok st)
  /\ (search_term st <> last_search_term st ->
      forall view,
        (if filter_mode st =? 0 then filter_fuzzy else filter_regex)
          data (search_term st) = Ok view ->
        exists st',
          refresh data st = Ok st'
          /\ mydata st' = view
          /\ last_search_term st' = search_term st
          /\ search_term st' = search_term st
          /\ filter_mode st' = filter_mode st)
  /\ exists st',
       dispatch st (Some CTRL_T) = Ok (Continue st')
       /\ st' = set_filter_mode ((filter_mode st + 1) mod 2) st
       /\ filter_mode st' <> filter_mode st
       /\ 0 <= filter_mode st' < 2
       /\ (search_term st = last_search_term st -> refresh data st' = Ok st').
Proof.
  intros Hm.
  assert (Hsame : forall t : state,
             0 <= filter_mode t < 2 ->
             search_term t = last_search_term t -> refresh data t = Ok t).
  { intros t Ht Heq. unfold refresh.
    assert (Hcase : filter_mode t = 0 \/ filter_mode t = 1) by lia.
    destruct Hcase as [-> | ->];
      [change (py_index filters 0) with (Ok (filter_fuzzy, s "fuzzy"))
      |change (py_index filters 1) with (Ok (filter_regex, s "regex"))];
      cbn [bind]; rewrite Heq, str_eqb_refl; reflexivity. }
  split; [apply Hsame; exact Hm|]. split.
  - intros Hne view Hview. unfold refresh.
    apply not_eq_sym in Hne. apply str_eqb_neq in Hne.
    assert (Hcase : filter_mode st = 0 \/ filter_mode st = 1) by lia.
    destruct Hcase as [E | E]; rewrite E in *;
      [change (py_index filters 0) with (Ok (filter_fuzzy, s "fuzzy"))
      |change (py_index filters 1) with (Ok (filter_regex, s "regex"))];
      cbn [bind fst]; rewrite Hne; cbn [negb];
      cbn [Z.eqb] in Hview; rewrite Hview; cbn [bind];
      eexists; repeat split; cbn [filter_mode]; symmetry; exact E.
  - exists (set_filter_mode ((filter_mode st + 1) mod 2) st).
    assert (Hmode : 0 <= (filter_mode st + 1) mod 2 < 2)
      by (apply Z.mod_pos_bound; lia).
    assert (Hne : (filter_mode st + 1) mod 2 <> filter_mode st).
    { assert (Hcase : filter_mode st = 0 \/ filter_mode st = 1) by lia.
      destruct Hcase as [-> | ->]; discriminate. }
    split; [reflexivity|]. split; [reflexivity|].
    split; [exact Hne|]. split; [exact Hmode|].
    intros Heq. apply Hsame; [exact Hmode | exact Heq].
Qed.

Lemma view_refreshed_on_term_change_only_witness :
  0 <= filter_mode (initial [s "Apple"]) < 2
  /\ refresh [s "Apple"] (initial [s "Apple"]) = Ok (initial [s "Apple"]).
Proof.
  split; [simpl; lia|].
  apply (view_refreshed_on_term_change_only [s "Apple"] (initial [s "Apple"]));
    [simpl; lia | reflexivity].
Defined.

(** C3 as stated fails: after [a] and the toggle key, the program waits
    for a key with the view [Apple] on the screen, in regex mode, where
    the search term [a] matches no line. *)
Lemma toggle_keeps_view_counterexample :
  exists evs st,
    main (s "Apple" ++ NL) (const_size 80 24) (s "a" ++ CTRL_T)
    = (evs, Waiting st)
    /\ last (rendered evs) ([], 0) = ([s "Apple"], 0)
    /\ filter_mode st = 1
    /\ search_term st = s "a"
    /\ filter_regex [s "Apple"] (s "a") = Ok []
    /\ ~ view_consistent [s "Apple"] st.
Proof.
  eexists. eexists. split; [vm_compute; reflexivity|].
  repeat split.
  intros (entry & He & Hv). vm_compute in He. inversion He; subst.
  vm_compute in Hv. discriminate.
Qed.

(** C9: some reachable state has an empty view, and there the return key
    raises [IndexError] out of the loop: one line [a] piped in, the key [b]
    typed, then return; the program ends with a traceback and prints
    nothing.  Whatever the focus, return on an empty view raises. *)
Theorem return_on_empty_view_raises :
  (forall f m t l r,
     dispatch {| focus := f; filter_mode := m; search_term := t;
                 last_search_term := l; mydata := []; rprint := r |}
              (Some RETURN)
     = Raise IndexError)
  /\ main (s "a" ++ NL) (const_size 80 24) (s "b" ++ RETURN)
     = ([EvAcquire;
         EvRender [s "a"] 80 24 0
           (s "Start typeing for search, ctrl-t for switching search mode");
         EvRender [] 80 24 0 (s "(fuzzy) Searching for: b");
         EvRelease; EvTraceback IndexError; EvExit 1],
        Raised IndexError).
Proof.
  split; [|reflexivity].
  intros f m t l r. unfold dispatch.
  change (key_in RETURN [s "up"; s "down"]) with false.
  change (key_in RETURN [RETURN; NEWLINE]) with true.
  cbn [mydata focus]. unfold py_index, len. cbn [length Z.of_nat].
  destruct (f <? 0) eqn:E.
  - rewrite Z.add_0_r.
    replace (0 <=? f) with false by (symmetry; apply Z.leb_gt; lia).
    reflexivity.
  - destruct (0 <=? f); [|reflexivity].
    replace (f <? 0) with false. reflexivity.
Qed.

(** C10: ctrl-d is decoded to the string [screen down]; no test of the
    key dispatch holds of it but the last, which appends its eleven
    characters to the search term and leaves the focus where it is. *)
Theorem ctrl_d_appends_screen_down :
  (forall rest, get_input (CTRL_D ++ rest) = Some (Some (s "screen down"), rest))
  /\ length (s "screen down") = 11%nat
  /\ forall st,
       dispatch st (Some (s "screen down"))
       = Ok (Continue (set_search_term (search_term st ++ s "screen down") st))
       /\ focus (set_search_term (search_term st ++ s "screen down") st)
          = focus st.
Proof.
  split; [reflexivity|]. split; [reflexivity|].
  intros st. split; reflexivity.
Qed.

(** ** The renderer *)

Lemma cells_app (a b : list write) : cells (a ++ b) = cells a ++ cells b.
Proof.
  induction a as [|w a IH]; [reflexivity|].
  destruct w; simpl; rewrite IH; reflexivity.
Qed.

Lemma cells_body (data : list str) (width focus : Z) (linenos : list Z) :
  forall termno,
    cells (body data width focus termno linenos)
    = map (body_cell data width focus) linenos.
Proof.
  induction linenos as [|lineno rest IH]; intros termno; [reflexivity|].
  cbn [body map]. rewrite cells_app, IH. f_equal.
  unfold body_row, body_cell, out.
  destruct (py_index data lineno); reflexivity.
Qed.

Lemma out_width (line : str) (width : Z) :
  0 <= width -> len (ljust (slice_to line width) width) = width.
Proof.
  intros H. unfold ljust, slice_to, len.
  replace (0 <=? width) with true by (symmetry; apply Z.leb_le; exact H).
  rewrite length_app, repeat_length, length_firstn. lia.
Qed.

Lemma body_cell_width (data : list str) (width focus lineno : Z) :
  0 <= width -> len (snd (body_cell data width focus lineno)) = width.
Proof.
  intros H. unfold body_cell.
  destruct (py_index data lineno); cbn [snd]; apply out_width; exact H.
Qed.

(** C8, as amended: for a width that is not negative, [render] writes the
    header, [height - 2] body rows and the footer, which is [height] rows
    when [height] is 2 or more (and 2 rows otherwise); the text of every
    row is cut to [width] characters and then filled with spaces to
    exactly [width]; a body row for which the view has no line is a row
    of spaces, without colour. *)
Theorem render_rows (data : list str) (width height focus : Z)
    (lastline : str) :
  0 <= width ->
  let lower := lower_of data height focus in
  let rows := cells (render data width height focus lastline) in
  rows = (framecolor, ljust (slice_to firstline width) width)
         :: map (body_cell data width focus)
                (py_range lower (lower + height - 2))
         ++ [(framecolor, ljust (slice_to lastline width) width)]
  /\ len rows = Z.max 2 height
  /\ Forall (fun row => len (snd row) = width) rows
  /\ forall lineno,
       py_index data lineno = Raise IndexError ->
       body_cell data width focus lineno
       = ([], repeat " "%char (Z.to_nat width)).
Proof.
  intros Hw lower rows.
  assert (Hrows : rows
                  = (framecolor, ljust (slice_to firstline width) width)
                    :: map (body_cell data width focus)
                           (py_range lower (lower + height - 2))
                    ++ [(framecolor, ljust (slice_to lastline width) width)]).
  { subst rows. unfold render. fold lower.
    cbn [app cells out]. rewrite cells_app, cells_body. reflexivity. }
  split; [exact Hrows|]. split; [|split].
  - rewrite Hrows. unfold len, py_range.
    cbn [length]. rewrite length_app, !length_map, length_seq.
    cbn [length]. lia.
  - rewrite Hrows. constructor; [apply out_width; exact Hw|].
    apply Forall_app. split.
    + apply Forall_forall. intros row Hin. apply in_map_iff in Hin.
      destruct Hin as (lineno & <- & _). apply body_cell_width. exact Hw.
    + constructor; [apply out_width; exact Hw | constructor].
  - intros lineno Hraise. unfold body_cell. rewrite Hraise.
    unfold ljust, slice_to, len.
    replace (0 <=? width) with true by (symmetry; apply Z.leb_le; exact Hw).
    rewrite firstn_nil. cbn [length app Z.of_nat]. rewrite Z.sub_0_r.
    reflexivity.
Qed.

Lemma render_rows_witness :
  0 <= 7
  /\ len (cells (render [s "apple"; s "grape"] 7 5 1 (s "foot"))) = Z.max 2 5
  /\ Forall (fun row => len (snd row) = 7)
            (cells (render [s "apple"; s "grape"] 7 5 1 (s "foot"))).
Proof.
  split; [lia|].
  destruct (render_rows [s "apple"; s "grape"] 7 5 1 (s "foot"))
    as (_ & Hlen & Hwidth & _); [lia|].
  split; [exact Hlen | exact Hwidth].
Defined.

(** C8 as stated fails: on a terminal of one row, [render] writes two
    rows, the header and the footer. *)
Lemma render_one_row_counterexample :
  cells (render [s "apple"; s "grape"] 7 1 0 (s "foot"))
  = [(framecolor, s "Navigat"); (framecolor, s "foot   ")]
  /\ len (cells (render [s "apple"; s "grape"] 7 1 0 (s "foot"))) <> 1.
Proof. split; [reflexivity | discriminate]. Qed.

(** ** The lines that the program loads *)

Lemma lstrip_nl_id (x : str) : no_newline x -> lstrip_nl x = x.
Proof.
  destruct x as [|c x]; [reflexivity|]. intros H. simpl.
  destruct (ascii_eqb c Re.newline) eqn:E; [|reflexivity].
  apply ascii_eqb_eq in E. exfalso. apply H. left. exact E.
Qed.

Lemma no_newline_rev (x : str) : no_newline x -> no_newline (rev x).
Proof. unfold no_newline. intros H Hin. apply H, in_rev. exact Hin. Qed.

Lemma strip_nl_plain (x : str) : no_newline x -> strip_nl x = x.
Proof.
  intros H. unfold strip_nl. rewrite (lstrip_nl_id x H).
  rewrite (lstrip_nl_id (rev x) (no_newline_rev x H)). apply rev_involutive.
Qed.

Lemma strip_nl_terminated (x : str) :
  no_newline x -> strip_nl (x ++ [Re.newline]) = x.
Proof.
  intros H. unfold strip_nl.
  assert (Hl : lstrip_nl (x ++ [Re.newline]) = x ++ [Re.newline]
               \/ lstrip_nl (x ++ [Re.newline]) = x).
  { destruct x as [|c x]; [right; reflexivity|]. left. cbn [app lstrip_nl].
    destruct (ascii_eqb c Re.newline) eqn:E; [|reflexivity].
    apply ascii_eqb_eq in E. exfalso. apply H. left. exact E. }
  destruct Hl as [-> | ->].
  - rewrite rev_app_distr. cbn [rev app lstrip_nl].
    replace (ascii_eqb Re.newline Re.newline) with true by reflexivity.
    rewrite (lstrip_nl_id (rev x) (no_newline_rev x H)). apply rev_involutive.
  - rewrite (lstrip_nl_id (rev x) (no_newline_rev x H)). apply rev_involutive.
Qed.

Lemma readlines_from_stripped (text : str) :
  forall cur, no_newline cur ->
    Forall no_newline (map strip_nl (readlines_from cur text)).
Proof.
  induction text as [|c text IH]; intros cur Hcur.
  - cbn [readlines_from]. destruct cur as [|d cur]; [constructor|].
    cbn [map]. constructor; [|constructor].
    rewrite strip_nl_plain; apply no_newline_rev; exact Hcur.
  - cbn [readlines_from].
    destruct (ascii_eqb c Re.newline) eqn:E.
    + apply ascii_eqb_eq in E. subst c. cbn [map rev].
      constructor; [|apply IH; intros []].
      rewrite strip_nl_terminated; apply no_newline_rev; exact Hcur.
    + apply IH. intros [H|H]; [|exact (Hcur H)].
      apply ascii_eqb_neq in E. congruence.
Qed.

(** X4.  No line of the line list holds a newline. *)
Lemma loaded_lines_no_newline (text : str) :
  Forall no_newline (map strip_nl (readlines text)).
Proof. apply readlines_from_stripped. intros []. Qed.

(** ** The scenarios of the specification *)

Example scenario_fuzzy_ap :
  filter_fuzzy (map strip_nl (readlines fruit)) (s "ap")
  = Ok [s "apple"; s "grape"].
Proof. reflexivity. Qed.

Example scenario_regex_b :
  filter_regex (map strip_nl (readlines fruit)) (s "^b") = Ok [s "banana"].
Proof. reflexivity. Qed.

Example scenario_down_twice :
  adjust_focus [s "apple"; s "grape"]
    (adjust_focus [s "apple"; s "grape"] 0 (s "down")) (s "down") = 1.
Proof. reflexivity. Qed.

Example scenario_cancel :
  exists evs st,
    main fruit (const_size 80 24) (s "ap" ++ CTRL_C) = (evs, Left st)
    /\ printed evs = [] /\ exit_code evs = Some 0.
Proof. eexists. eexists. repeat split. Qed.


(** * Further properties of the program *)

(** ** The filters, line by line *)

Lemma quantify_raises (q : Re.quant) (f : Re.frame) (e : exn) :
  Re.quantify q f = Raise e -> e = ReError.
Proof.
  unfold Re.quantify. destruct (Re.items f) as [|x rest]; [congruence|].
  destruct x, q; congruence.
Qed.

(** The only exception of [re.compile] is [re.error]. *)
Lemma parse_raises (n : nat) :
  forall p, (length p <= n)%nat ->
    forall st stack e, Re.parse st stack p = Raise e -> e = ReError.
Proof.
  induction n as [|n IH]; intros p Hlen st stack e H.
  - destruct p; [|simpl in Hlen; lia]. simpl in H.
    destruct stack; congruence.
  - destruct p as [|c rest]; [simpl in H; destruct stack; congruence|].
    simpl in Hlen. cbn [Re.parse] in H.
    repeat match type of H with
           | (if ?b then _ else _) = _ => destruct b
           end;
      try congruence;
      try (eapply (IH rest); [lia | exact H]).
    + destruct rest as [|d rest']; [congruence|].
      destruct (Re.is_alnum d); [congruence|].
      simpl in Hlen. eapply (IH rest'); [lia | exact H].
    + destruct rest as [|d rest'].
      * eapply (IH []); [simpl; lia | exact H].
      * destruct d as [[] [] [] [] [] [] [] []];
          try congruence;
          (eapply (IH (_ :: rest')); [simpl in *; lia | exact H]).
    + destruct stack as [|up stack']; [congruence|].
      eapply (IH rest); [lia | exact H].
    + destruct (Re.quantify Re.QStar st) as [st'|e'|] eqn:Eq; cbn [bind] in H;
        [eapply (IH rest); [lia | exact H] | | congruence].
      inversion H; subst. eapply quantify_raises. exact Eq.
    + destruct (Re.quantify Re.QPlus st) as [st'|e'|] eqn:Eq; cbn [bind] in H;
        [eapply (IH rest); [lia | exact H] | | congruence].
      inversion H; subst. eapply quantify_raises. exact Eq.
    + destruct (Re.quantify Re.QOpt st) as [st'|e'|] eqn:Eq; cbn [bind] in H;
        [eapply (IH rest); [lia | exact H] | | congruence].
      inversion H; subst. eapply quantify_raises. exact Eq.
Qed.

Lemma compile_raises (p : str) (flag_i : bool) (e : exn) :
  Re.compile p flag_i = Raise e -> e = ReError.
Proof.
  unfold Re.compile.
  destruct (Re.parse _ _ p) as [t|e'|] eqn:E; cbn [bind]; try congruence.
  intros H. inversion H; subst.
  eapply parse_raises; [apply Nat.le_refl | exact E].
Qed.

Lemma filter_cases (string : str) :
  forall f, In f [filter_fuzzy; filter_regex] ->
    (exists keep, forall data, f data string = Ok (filter keep data))
    \/ (forall data, f data string = Raise ReError)
    \/ (forall data, f data string = Unmodelled).
Proof.
  intros f [<-|[<-|[]]].
  - unfold filter_fuzzy.
    destruct (Re.compile (join (s ".*") (chars string)) true) as [p|e|] eqn:E.
    + left. exists (Re.search p). reflexivity.
    + right. left. apply compile_raises in E. subst. reflexivity.
    + right. right. reflexivity.
  - unfold filter_regex.
    destruct (Re.compile string false) as [p|e|] eqn:E.
    + left. exists (Re.search p). reflexivity.
    + right. left. apply compile_raises in E. subst. reflexivity.
    + right. right. reflexivity.
Qed.



Lemma join_chars_cons (sep : str) (c : ascii) (y : str) :
  join sep (chars (c :: y))
  = c :: match y with [] => [] | _ :: _ => sep ++ join sep (chars y) end.
Proof. destruct y; reflexivity. Qed.

(** Reading the plain characters of a search term leaves the branch empty
    or with [.*] as its last item. *)
Lemma parse_fuzzy_skip (x : str) :
  Forall (fun c => Re.plain c = true) x ->
  forall z a it, z <> [] ->
    exists it',
      Re.parse {| Re.alts := a; Re.items := it |} []
               (join (s ".*") (chars (x ++ z)))
      = Re.parse {| Re.alts := a; Re.items := it' |} []
                 (join (s ".*") (chars z))
      /\ (it' = it \/ exists r, it' = Re.Star Re.Any :: r).
Proof.
  induction 1 as [|c x Hc Hx IH]; intros z a it Hz.
  - exists it. split; [reflexivity | left; reflexivity].
  - cbn [app]. rewrite join_chars_cons.
    destruct (x ++ z) as [|d w] eqn:E.
    { destruct x; [|discriminate]. simpl in E. contradiction. }
    rewrite <- E. rewrite parse_plain by assumption.
    rewrite parse_dot_star. unfold Re.push_item. cbn [Re.alts Re.items].
    destruct (IH z a (Re.Star Re.Any :: Re.Lit c :: it) Hz) as (it' & Hp & Hit).
    exists it'. split; [exact Hp|]. right.
    destruct Hit as [-> | [r ->]]; eauto.
Qed.

(** X2.  In fuzzy mode too the characters of the search term are read as a
    pattern: after plain characters, a [*] or a [)] makes the filter
    raise [re.error], whatever the lines and whatever follows. *)
Theorem filter_fuzzy_raises_on_star_and_paren (data : list str) (x y : str) :
  Forall (fun c => Re.plain c = true) x ->
  filter_fuzzy data (x ++ "*"%char :: y) = Raise ReError
  /\ filter_fuzzy data (x ++ ")"%char :: y) = Raise ReError.
Proof.
  intros Hx. unfold filter_fuzzy, Re.compile. split.
  - destruct (parse_fuzzy_skip x Hx ("*"%char :: y) [] []) as (it' & -> & Hit);
      [discriminate|].
    rewrite join_chars_cons.
    destruct Hit as [-> | [r ->]]; reflexivity.
  - destruct (parse_fuzzy_skip x Hx (")"%char :: y) [] []) as (it' & -> & Hit);
      [discriminate|].
    rewrite join_chars_cons. reflexivity.
Qed.

Lemma filter_fuzzy_raises_on_star_and_paren_witness :
  filter_fuzzy [s "apple"] (s "a*") = Raise ReError
  /\ filter_fuzzy [s "apple"] (s "a)p") = Raise ReError.
Proof.
  split.
  - apply (filter_fuzzy_raises_on_star_and_paren [s "apple"] (s "a") []).
    repeat constructor.
  - apply (filter_fuzzy_raises_on_star_and_paren [s "apple"] (s "a") (s "p")).
    repeat constructor.
Defined.

Lemma filter_fuzzy_plain (L : list str) (x : str) :
  Forall (fun c => Re.plain c = true) x ->
  Forall no_newline L ->
  filter_fuzzy L x = Ok (filter (ci_subseqb x) L).
Proof.
  intros Hx HL. unfold filter_fuzzy. rewrite compile_fuzzy by assumption.
  cbn [bind]. f_equal. apply filter_ext_in. intros line Hin.
  rewrite Forall_forall in HL. apply eq_true_iff_eq.
  rewrite search_spec, ci_subseqb_spec. apply fuzzy_found. apply HL. exact Hin.
Qed.

Lemma ci_subseq_app_l (x y line : str) :
  ci_subseq (x ++ y) line -> ci_subseq x line.
Proof.
  revert x. induction line as [|d line IH]; intros x H.
  - destruct x; [constructor | inversion H].
  - destruct x as [|c x]; [constructor|]. cbn [app] in H.
    inversion H; subst.
    + apply ci_take; [assumption | apply IH; assumption].
    + apply ci_skip. apply IH. assumption.
Qed.

Lemma filter_filter_implied {A} (f g : A -> bool) (l : list A) :
  (forall a, In a l -> f a = true -> g a = true) ->
  filter f (filter g l) = filter f l.
Proof.
  induction l as [|a l IH]; intros H; [reflexivity|]. cbn [filter].
  assert (IH' : filter f (filter g l) = filter f l)
    by (apply IH; intros b Hb; apply H; right; exact Hb).
  destruct (g a) eqn:Eg.
  - cbn [filter]. rewrite IH'. reflexivity.
  - destruct (f a) eqn:Ef; [|exact IH'].
    rewrite (H a (or_introl eq_refl) Ef) in Eg. discriminate.
Qed.

(** X3.  Typing on narrows the view: for plain search terms, the view of the
    longer term is part of the view of the shorter one, and filtering the
    shorter term's view by the longer term gives the same lines as
    filtering the whole line list. *)
Theorem filter_fuzzy_narrows (L : list str) (x y : str) :
  Forall (fun c => Re.plain c = true) (x ++ y) ->
  Forall no_newline L ->
  exists v1 v2,
    filter_fuzzy L x = Ok v1
    /\ filter_fuzzy L (x ++ y) = Ok v2
    /\ filter_fuzzy v1 (x ++ y) = Ok v2
    /\ forall line, In line v2 -> In line v1.
Proof.
  intros Hxy HL.
  assert (Hx : Forall (fun c => Re.plain c = true) x)
    by (apply Forall_app in Hxy; tauto).
  assert (Himp : forall line, ci_subseqb (x ++ y) line = true ->
                              ci_subseqb x line = true).
  { intros line H. apply ci_subseqb_spec. apply ci_subseqb_spec in H.
    eapply ci_subseq_app_l. exact H. }
  exists (filter (ci_subseqb x) L), (filter (ci_subseqb (x ++ y)) L).
  split; [apply filter_fuzzy_plain; assumption|].
  split; [apply filter_fuzzy_plain; assumption|]. split.
  - rewrite filter_fuzzy_plain; [|assumption|].
    + f_equal. apply filter_filter_implied. intros line _. apply Himp.
    + rewrite Forall_forall in *. intros line Hin.
      apply filter_In in Hin. apply HL. tauto.
  - intros line Hin. apply filter_In in Hin. apply filter_In.
    split; [tauto | apply Himp; tauto].
Qed.

Lemma filter_fuzzy_narrows_witness :
  exists v1 v2,
    filter_fuzzy [s "apple"; s "banana"; s "grape"] (s "a") = Ok v1
    /\ filter_fuzzy [s "apple"; s "banana"; s "grape"] (s "a" ++ s "p") = Ok v2
    /\ filter_fuzzy v1 (s "a" ++ s "p") = Ok v2
    /\ forall line, In line v2 -> In line v1.
Proof.
  apply (filter_fuzzy_narrows [s "apple"; s "banana"; s "grape"] (s "a") (s "p")).
  - repeat constructor.
  - repeat constructor; intros H; vm_compute in H;
      repeat (destruct H as [H|H]; [discriminate|]); exact H.
Defined.

(** ** Loading the lines *)

Lemma readlines_from_line (l : str) :
  no_newline l ->
  forall cur rest,
    readlines_from cur (l ++ Re.newline :: rest)
    = (rev cur ++ l ++ [Re.newline]) :: readlines_from [] rest.
Proof.
  induction l as [|c l IH]; intros Hl cur rest.
  - cbn [app readlines_from].
    replace (ascii_eqb Re.newline Re.newline) with true by reflexivity.
    reflexivity.
  - cbn [app readlines_from].
    destruct (ascii_eqb c Re.newline) eqn:E.
    + apply ascii_eqb_eq in E. exfalso. apply Hl. left. exact E.
    + rewrite IH; [|intros H; apply Hl; right; exact H].
      cbn [rev]. rewrite <- app_assoc. reflexivity.
Qed.

(** X5.  Lines without a newline, each written with a newline after it, are
    loaded back as they were: the empty lines too, and in their order. *)
Theorem load_lines_round_trip (L : list str) :
  Forall no_newline L ->
  map strip_nl (readlines (flat_map (fun l => l ++ NL) L)) = L.
Proof.
  unfold readlines. induction 1 as [|l L Hl HL IH]; [reflexivity|].
  cbn [flat_map]. unfold NL at 1. rewrite <- app_assoc. cbn [app].
  rewrite readlines_from_line by assumption.
  cbn [map rev app]. rewrite strip_nl_terminated by assumption.
  f_equal. exact IH.
Qed.

Lemma load_lines_round_trip_witness :
  map strip_nl (readlines (flat_map (fun l => l ++ NL) [s "apple"; []; s "grape"]))
  = [s "apple"; []; s "grape"].
Proof.
  apply (load_lines_round_trip [s "apple"; []; s "grape"]).
  repeat constructor; intros H; vm_compute in H;
    repeat (destruct H as [H|H]; [discriminate|]); exact H.
Defined.

(** ** The key decoder *)

(** X6.  [get_input] waits exactly when nothing is pending, or when the
    escape character is pending with fewer than two characters after
    it. *)
Theorem get_input_blocks (tty : str) :
  get_input tty = None
  <-> tty = [] \/ exists rest, tty = ESC ++ rest /\ (length rest < 2)%nat.
Proof.
  split.
  - destruct tty as [|c rest]; [left; reflexivity|]. intros H. right.
    destruct c as [[] [] [] [] [] [] [] []]; try discriminate H.
    exists rest. split; [reflexivity|].
    destruct rest as [|a [|b rest']]; simpl; try lia.
    discriminate H.
  - intros [->|(rest & -> & Hlen)]; [reflexivity|].
    destruct rest as [|a [|b rest']]; try reflexivity.
    simpl in Hlen. lia.
Qed.

(** X7.  What [get_input] returns is a token of the tables, no key at all
    (after an unknown escape sequence), or the character read, as it is;
    it is never the escape character nor one of the three aliased control
    characters.  One character is consumed, or three for an escape
    sequence. *)
Theorem get_input_keys (tty rest : str) (key : option str) :
  get_input tty = Some (key, rest) ->
  ((exists a b, tty = ESC ++ a :: b :: rest
                /\ key = dict_get ESCKEYS [a; b]
                /\ (key = None \/ key = Some (s "up") \/ key = Some (s "down")))
   \/ (exists c, tty = c :: rest
                 /\ (key = Some (s "down") /\ [c] = CTRL_N
                     \/ key = Some (s "up") /\ c = ascii_of_nat 16
                     \/ key = Some (s "screen down") /\ [c] = CTRL_D
                     \/ key = Some [c])))
  /\ ~ In key [Some ESC; Some CTRL_N; Some [ascii_of_nat 16]; Some CTRL_D].
Proof.
  destruct tty as [|c tty']; [discriminate|]. intros H.
  assert (Hesc : [c] = ESC -> exists a b,
             tty' = a :: b :: rest /\ key = dict_get ESCKEYS [a; b]).
  { intros Hc. inversion Hc; subst c. clear Hc.
    destruct tty' as [|a [|b r]]; try discriminate H.
    exists a, b. cbn in H. inversion H. auto. }
  assert (Hkeys : forall a b, dict_get ESCKEYS [a; b] = None
                              \/ dict_get ESCKEYS [a; b] = Some (s "up")
                              \/ dict_get ESCKEYS [a; b] = Some (s "down")).
  { intros a b. unfold dict_get, ESCKEYS.
    destruct (str_eqb (s "[A") [a; b]); [auto|].
    destruct (str_eqb (s "[B") [a; b]); auto. }
  destruct c as [[] [] [] [] [] [] [] []];
    try (destruct (Hesc eq_refl) as (a & b & -> & ->);
         split; [left; exists a, b; split; [reflexivity|];
                 split; [reflexivity | apply Hkeys]|];
         intros Hin; destruct (Hkeys a b) as [E|[E|E]]; rewrite E in Hin;
         simpl in Hin; intuition discriminate);
    cbn in H; inversion H; subst;
    (split; [right; eexists; split; [reflexivity|]; tauto|]);
    intros Hin; simpl in Hin; intuition discriminate.
Qed.

Lemma get_input_keys_witness :
  ~ In (Some (s "screen down"))
       [Some ESC; Some CTRL_N; Some [ascii_of_nat 16]; Some CTRL_D].
Proof.
  apply (get_input_keys (CTRL_D ++ s "x") (s "x") (Some (s "screen down"))).
  reflexivity.
Defined.

(** X8.  Ctrl-n does what the down arrow does and ctrl-p what the up arrow
    does: from any state the cycle gives the same render, the same next
    state and the same pending input. *)
Theorem control_aliases_equal_arrows (data : list str) (size : Z * Z)
    (st : state) (rest : str) :
  cycle data size st (CTRL_N ++ rest) = cycle data size st (ESC ++ s "[B" ++ rest)
  /\ cycle data size st (ascii_of_nat 16 :: rest)
     = cycle data size st (ESC ++ s "[A" ++ rest).
Proof. split; reflexivity. Qed.

(** X9.  An escape sequence that [ESCKEYS] does not know is consumed whole and
    changes nothing: the cycle renders the refreshed state and hands it on
    as it is. *)
Theorem unknown_escape_is_ignored (data : list str) (size : Z * Z)
    (st st1 : state) (lastline : str) (a b : ascii) (rest : str) :
  dict_get ESCKEYS [a; b] = None ->
  refresh data st = Ok st1 ->
  lastline_of st1 = Ok lastline ->
  cycle data size st (ESC ++ a :: b :: rest)
  = ([EvRender (mydata st1) (fst size) (snd size) (focus st1) lastline],
     inr (st1, rest)).
Proof.
  intros Hk Hr Hl. unfold cycle. rewrite Hr. cbn [bind]. rewrite Hl.
  cbn [bind]. change (get_input (ESC ++ a :: b :: rest))
    with (Some (dict_get ESCKEYS [a; b], rest)).
  rewrite Hk. reflexivity.
Qed.

Lemma unknown_escape_is_ignored_witness :
  cycle [s "apple"] (80, 24) (initial [s "apple"]) (ESC ++ s "[Cx")
  = ([EvRender [s "apple"] 80 24 0
        (s "Start typeing for search, ctrl-t for switching search mode")],
     inr (initial [s "apple"], s "x")).
Proof.
  apply (unknown_escape_is_ignored [s "apple"] (80, 24) (initial [s "apple"])
           (initial [s "apple"])
           (s "Start typeing for search, ctrl-t for switching search mode")
           "["%char "C"%char (s "x"));
    reflexivity.
Defined.

(** ** Keys and the state *)

Lemma adjust_focus_in_view (data : list str) (focus : Z) (key : str) :
  focus_in_view data focus -> focus_in_view data (adjust_focus data focus key).
Proof.
  unfold focus_in_view, adjust_focus. intros H.
  destruct (str_eqb key (s "down") && (focus <? len data - 1)) eqn:Ed.
  - apply andb_true_iff in Ed. destruct Ed as [_ Ed].
    apply Z.ltb_lt in Ed. lia.
  - destruct (str_eqb key (s "up") && negb (focus =? 0)) eqn:Eu; [|exact H].
    apply andb_true_iff in Eu. destruct Eu as [_ Eu].
    apply negb_true_iff, Z.eqb_neq in Eu. lia.
Qed.

(** X10.  No key takes the focus out of the view: a key that lets the loop go
    on leaves the view and the term of the last computation as they are,
    and a focus that pointed into the view still does. *)
Theorem keys_keep_focus_in_view (st st' : state) (key : option str) :
  focus_in_view (mydata st) (focus st) ->
  dispatch st key = Ok (Continue st') ->
  focus_in_view (mydata st') (focus st')
  /\ mydata st' = mydata st
  /\ last_search_term st' = last_search_term st.
Proof.
  intros Hf. unfold dispatch.
  destruct key as [key|]; [|intros H; inversion H; subst; auto].
  destruct (key_in key [s "up"; s "down"]).
  { intros H. inversion H; subst. cbn [set_focus mydata focus last_search_term].
    split; [apply adjust_focus_in_view; exact Hf | auto]. }
  destruct (key_in key [RETURN; NEWLINE]).
  { destruct (py_index (mydata st) (focus st)); cbn [bind]; discriminate. }
  destruct (key_in key [BACKSPACE]);
    [intros H; inversion H; subst; auto|].
  destruct (key_in key [CTRL_C]); [discriminate|].
  destruct (key_in key [CTRL_T]); intros H; inversion H; subst; auto.
Qed.

Lemma keys_keep_focus_in_view_witness :
  focus_in_view [s "apple"; s "grape"] 1.
Proof.
  apply (keys_keep_focus_in_view
           (set_focus 1 (initial [s "apple"; s "grape"]))
           (set_focus 1 (initial [s "apple"; s "grape"]))
           (Some (s "down")));
    [unfold focus_in_view, len; simpl; lia | reflexivity].
Defined.

(** X11.  When the refresh recomputes the view, it leaves the focus in the new
    view in all cases but two: the focus is positive and equal to the new
    length, or the focus is positive and the new view is empty. *)
Theorem refresh_focus_in_view (data : list str) (st st' : state) :
  refresh data st = Ok st' ->
  search_term st <> last_search_term st ->
  0 <= focus st ->
  (focus_in_view (mydata st') (focus st')
   <-> ~ (0 < focus st
          /\ (focus st = len (mydata st') \/ mydata st' = []))).
Proof.
  unfold refresh. intros H Hne Hf.
  destruct (py_index filters (filter_mode st)) as [entry| |]; cbn [bind] in H;
    try discriminate.
  apply not_eq_sym, str_eqb_neq in Hne. rewrite Hne in H. cbn [negb] in H.
  destruct (fst entry data (search_term st)) as [view| |]; cbn [bind] in H;
    try discriminate.
  inversion H; subst; clear H. cbn [mydata focus]. unfold focus_in_view.
  assert (Hlen : 0 <= len view) by (unfold len; lia).
  assert (Hnil : view = [] <-> len view = 0).
  { unfold len. destruct view; simpl; split; intros; try discriminate;
      try reflexivity; lia. }
  destruct (focus st >? len view) eqn:E.
  - apply Z.gtb_lt in E. rewrite Hnil. lia.
  - rewrite Z.gtb_ltb in E. apply Z.ltb_ge in E.
    rewrite Hnil. lia.
Qed.

Lemma refresh_focus_in_view_witness :
  exists st',
    refresh [s "a"; s "ab"]
            (set_search_term (s "b") (set_focus 1 (initial [s "a"; s "ab"])))
    = Ok st'
    /\ mydata st' = [s "ab"] /\ focus st' = 1
    /\ ~ focus_in_view (mydata st') (focus st').
Proof.
  eexists. split; [reflexivity|]. split; [reflexivity|]. split; [reflexivity|].
  intros H.
  apply (refresh_focus_in_view [s "a"; s "ab"]
           (set_search_term (s "b") (set_focus 1 (initial [s "a"; s "ab"])))
           _ eq_refl) in H.
  - apply H. split; [simpl; lia | left; reflexivity].
  - discriminate.
  - simpl. lia.
Defined.

(** X12.  A refresh that succeeds need not be done twice: on its own result it
    recomputes nothing. *)
Theorem refresh_idempotent (data : list str) (st st1 : state) :
  refresh data st = Ok st1 -> refresh data st1 = Ok st1.
Proof.
  unfold refresh.
  destruct (py_index filters (filter_mode st)) as [entry| |] eqn:Ei;
    cbn [bind]; try discriminate.
  destruct (negb (str_eqb (last_search_term st) (search_term st))) eqn:En.
  - destruct (fst entry data (search_term st)) as [view| |]; cbn [bind];
      try discriminate.
    intros H. inversion H; subst; clear H.
    cbn [filter_mode last_search_term search_term]. rewrite Ei. cbn [bind].
    rewrite str_eqb_refl. reflexivity.
  - intros H. inversion H; subst; clear H. rewrite Ei. cbn [bind].
    rewrite En. reflexivity.
Qed.

Lemma refresh_idempotent_witness :
  exists st1,
    refresh [s "a"; s "ab"] (set_search_term (s "b") (initial [s "a"; s "ab"]))
    = Ok st1
    /\ refresh [s "a"; s "ab"] st1 = Ok st1.
Proof.
  eexists. split; [reflexivity|].
  apply (refresh_idempotent [s "a"; s "ab"]
           (set_search_term (s "b") (initial [s "a"; s "ab"]))).
  reflexivity.
Defined.

(** X13.  Within the two filter modes the state never leaves them, looking up
    the filter never raises [IndexError], the footer can always be built,
    and the toggle key pressed twice gives the state back. *)
Theorem filter_mode_stays_valid (data : list str) (st : state) :
  0 <= filter_mode st < 2 ->
  refresh data st <> Raise IndexError
  /\ (forall st1, refresh data st = Ok st1 -> filter_mode st1 = filter_mode st)
  /\ (exists lastline, lastline_of st = Ok lastline)
  /\ (forall key st2, dispatch st key = Ok (Continue st2) ->
                      0 <= filter_mode st2 < 2)
  /\ (exists st1, dispatch st (Some CTRL_T) = Ok (Continue st1)
                  /\ dispatch st1 (Some CTRL_T) = Ok (Continue st)).
Proof.
  intros Hm.
  assert (Hcase : filter_mode st = 0 \/ filter_mode st = 1) by lia.
  assert (Hidx : exists entry, py_index filters (filter_mode st) = Ok entry
                               /\ In (fst entry) [filter_fuzzy; filter_regex]).
  { destruct Hcase as [-> | ->]; eexists; (split; [reflexivity|]);
      simpl; auto. }
  destruct Hidx as (entry & Hidx & Hentry).
  split; [|split; [|split; [|split]]].
  - unfold refresh. rewrite Hidx. cbn [bind].
    destruct (negb _); [|discriminate].
    destruct (filter_cases (search_term st) (fst entry) Hentry)
      as [(keep & Hk) | [Hk | Hk]]; rewrite Hk; discriminate.
  - intros st1. unfold refresh. rewrite Hidx. cbn [bind].
    destruct (negb _).
    + destruct (fst entry data (search_term st)); cbn [bind]; try discriminate.
      intros H. inversion H. reflexivity.
    + intros H. inversion H. reflexivity.
  - unfold lastline_of. destruct (truthy (search_term st)); [|eauto].
    rewrite Hidx. cbn [bind]. eauto.
  - intros key st2. unfold dispatch.
    destruct key as [key|]; [|intros H; inversion H; subst; exact Hm].
    destruct (key_in key [s "up"; s "down"]);
      [intros H; inversion H; subst; exact Hm|].
    destruct (key_in key [RETURN; NEWLINE]).
    { destruct (py_index (mydata st) (focus st)); cbn [bind]; discriminate. }
    destruct (key_in key [BACKSPACE]);
      [intros H; inversion H; subst; exact Hm|].
    destruct (key_in key [CTRL_C]); [discriminate|].
    destruct (key_in key [CTRL_T]); intros H; inversion H; subst;
      [|exact Hm].
    cbn [set_filter_mode filter_mode]. apply Z.mod_pos_bound. reflexivity.
  - eexists. split; [reflexivity|].
    destruct st as [f m t l d r]. cbn [filter_mode] in *.
    destruct Hcase as [-> | ->]; reflexivity.
Qed.

Lemma filter_mode_stays_valid_witness :
  exists st1,
    dispatch (initial [s "apple"]) (Some CTRL_T) = Ok (Continue st1)
    /\ dispatch st1 (Some CTRL_T) = Ok (Continue (initial [s "apple"])).
Proof.
  apply (filter_mode_stays_valid [s "apple"] (initial [s "apple"])).
  simpl. lia.
Defined.






(** ** The run as a whole *)




(** ** The window of the renderer *)

Lemma py_range_length (a b : Z) : len (py_range a b) = Z.max 0 (b - a).
Proof. unfold py_range, len. rewrite length_map, length_seq. lia. Qed.

Lemma py_range_in (a b x : Z) : In x (py_range a b) <-> a <= x < b.
Proof.
  unfold py_range. rewrite in_map_iff. split.
  - intros (k & <- & Hk). apply in_seq in Hk. lia.
  - intros H. exists (Z.to_nat (x - a)). split; [lia|]. apply in_seq. lia.
Qed.

Lemma map_seq_offset (m : nat) :
  forall a k,
    map (fun j => a + Z.of_nat j) (seq k m)
    = map (fun j => a + Z.of_nat k + Z.of_nat j) (seq 0 m).
Proof.
  induction m as [|m IH]; intros a k; [reflexivity|].
  cbn [seq map]. f_equal; [lia|].
  rewrite (IH a (S k)), (IH (a + Z.of_nat k) 1%nat).
  apply map_ext. intros j. lia.
Qed.

Lemma py_range_split (a b x : Z) :
  a <= x < b -> py_range a b = py_range a x ++ x :: py_range (x + 1) b.
Proof.
  intros H. unfold py_range.
  replace (Z.to_nat (b - a))
    with (Z.to_nat (x - a) + S (Z.to_nat (b - (x + 1))))%nat by lia.
  rewrite seq_app, map_app. cbn [seq map Nat.add]. f_equal.
  f_equal; [lia|].
  rewrite map_seq_offset. apply map_ext. intros j. lia.
Qed.

Lemma body_cell_plain (data : list str) (width focus lineno : Z) :
  lineno <> focus -> fst (body_cell data width focus lineno) = [].
Proof.
  intros H. unfold body_cell. apply Z.eqb_neq in H. rewrite H.
  destruct (py_index data lineno); reflexivity.
Qed.

Lemma cells_render (data : list str) (width height focus : Z) (lastline : str) :
  cells (render data width height focus lastline)
  = (framecolor, ljust (slice_to firstline width) width)
    :: map (body_cell data width focus)
           (py_range (lower_of data height focus)
                     (lower_of data height focus + height - 2))
    ++ [(framecolor, ljust (slice_to lastline width) width)].
Proof.
  unfold render. cbn [app cells out]. rewrite cells_app, cells_body.
  reflexivity.
Qed.

(** X16.  With the focus on a line of the view and room for a body (a height of
    3 or more), the frame shows the focused line in exactly one body row,
    the only highlighted one: the body rows before and after it carry
    no colour. *)
Theorem focused_line_is_shown_once (data : list str) (width height focus : Z)
    (lastline : str) :
  0 <= focus < len data ->
  3 <= height ->
  exists line before after,
    py_index data focus = Ok line
    /\ cells (render data width height focus lastline)
       = (framecolor, ljust (slice_to firstline width) width)
         :: before
         ++ (highlight, ljust (slice_to line width) width) :: after
         ++ [(framecolor, ljust (slice_to lastline width) width)]
    /\ Forall (fun row => fst row = []) (before ++ after)
    /\ len before = focus - lower_of data height focus.
Proof.
  intros Hf Hh.
  assert (Hline : exists line, py_index data focus = Ok line).
  { unfold py_index. replace (focus <? 0) with false by (symmetry; apply Z.ltb_ge; lia).
    replace ((0 <=? focus) && (focus <? len data)) with true
      by (symmetry; apply andb_true_iff; split;
          [apply Z.leb_le | apply Z.ltb_lt]; lia).
    destruct (nth_error data (Z.to_nat focus)) as [line|] eqn:E; [eauto|].
    apply nth_error_None in E. unfold len in Hf. lia. }
  destruct Hline as [line Hline].
  assert (Hl : lower_of data height focus <= focus
               < lower_of data height focus + height - 2).
  { unfold lower_of. destruct (focus + height - 2 >? len data) eqn:E.
    - apply Z.gtb_lt in E. lia.
    - lia. }
  set (lower := lower_of data height focus) in *.
  exists line,
    (map (body_cell data width focus) (py_range lower focus)),
    (map (body_cell data width focus)
         (py_range (focus + 1) (lower + height - 2))).
  split; [exact Hline|]. split; [|split].
  - rewrite cells_render. fold lower.
    rewrite (py_range_split lower (lower + height - 2) focus Hl).
    rewrite map_app. cbn [map]. rewrite <- app_assoc. cbn [app].
    do 3 f_equal. unfold body_cell. rewrite Hline, Z.eqb_refl. reflexivity.
  - apply Forall_app. split; apply Forall_forall; intros row Hin;
      apply in_map_iff in Hin; destruct Hin as (lineno & <- & Hin);
      apply py_range_in in Hin; apply body_cell_plain; lia.
  - unfold len. rewrite length_map. fold (len (py_range lower focus)).
    rewrite py_range_length. lia.
Qed.

Lemma focused_line_is_shown_once_witness :
  exists line before after,
    py_index [s "apple"; s "grape"] 1 = Ok line
    /\ cells (render [s "apple"; s "grape"] 7 5 1 (s "foot"))
       = (framecolor, ljust (slice_to firstline 7) 7)
         :: before
         ++ (highlight, ljust (slice_to line 7) 7) :: after
         ++ [(framecolor, ljust (slice_to (s "foot") 7) 7)]
    /\ Forall (fun row => fst row = []) (before ++ after)
    /\ len before = 1 - lower_of [s "apple"; s "grape"] 5 1.
Proof.
  apply (focused_line_is_shown_once [s "apple"; s "grape"] 7 5 1 (s "foot"));
    unfold len; simpl; lia.
Defined.

(** X17.  The window never scrolls past the end of the view: with a focus that
    is not negative, a view that can fill the body fills it (every body
    row shows a line of the view), and a shorter view is shown from its
    first line. *)
Theorem window_stays_on_the_view (data : list str) (height focus : Z) :
  0 <= focus ->
  0 <= lower_of data height focus
  /\ (height - 2 <= len data ->
      forall lineno,
        In lineno (py_range (lower_of data height focus)
                            (lower_of data height focus + height - 2)) ->
        0 <= lineno < len data)
  /\ (len data < height - 2 -> lower_of data height focus = 0).
Proof.
  intros Hf. unfold lower_of.
  destruct (focus + height - 2 >? len data) eqn:E.
  - apply Z.gtb_lt in E. split; [lia|]. split.
    + intros Hfill lineno Hin. apply py_range_in in Hin. lia.
    + lia.
  - rewrite Z.gtb_ltb in E. apply Z.ltb_ge in E. split; [lia|]. split.
    + intros Hfill lineno Hin. apply py_range_in in Hin. lia.
    + lia.
Qed.

Lemma window_stays_on_the_view_witness :
  0 <= lower_of [s "apple"; s "grape"] 5 1
  /\ lower_of [s "apple"; s "grape"] 5 1 = 0.
Proof.
  destruct (window_stays_on_the_view [s "apple"; s "grape"] 5 1) as (H0 & _ & H2);
    [lia|].
  split; [exact H0 | apply H2; unfold len; simpl; lia].
Defined.

Lemma gotos_app (a b : list write) : gotos (a ++ b) = gotos a ++ gotos b.
Proof.
  induction a as [|w a IH]; [reflexivity|].
  destruct w; simpl; rewrite IH; reflexivity.
Qed.

Lemma gotos_body (data : list str) (width focus : Z) (linenos : list Z) :
  forall termno,
    gotos (body data width focus termno linenos)
    = py_range termno (termno + len linenos).
Proof.
  induction linenos as [|lineno rest IH]; intros termno.
  - unfold py_range, len. cbn [length Z.of_nat].
    replace (termno + 0 - termno) with 0 by lia. reflexivity.
  - cbn [body]. rewrite gotos_app, IH.
    rewrite (py_range_split termno (termno + len (lineno :: rest)) termno)
      by (unfold len; cbn [length]; lia).
    replace (py_range termno termno) with (@nil Z)
      by (unfold py_range; replace (termno - termno) with 0 by lia; reflexivity).
    unfold body_row.
    replace (termno + len (lineno :: rest)) with (termno + 1 + len rest)
      by (unfold len; cbn [length]; lia).
    destruct (py_index data lineno); reflexivity.
Qed.

Lemma body_alternates (data : list str) (width focus : Z) (linenos : list Z) :
  forall termno,
    body data width focus termno linenos
    = flat_map (fun p => [Goto (fst p); Cell (fst (snd p)) (snd (snd p))])
        (combine (py_range termno (termno + len linenos))
                 (map (body_cell data width focus) linenos)).
Proof.
  induction linenos as [|lineno rest IH]; intros termno.
  - cbn [body map]. destruct (py_range _ _); reflexivity.
  - cbn [body map]. rewrite IH.
    rewrite (py_range_split termno (termno + len (lineno :: rest)) termno)
      by (unfold len; cbn [length]; lia).
    replace (py_range termno termno) with (@nil Z)
      by (unfold py_range; replace (termno - termno) with 0 by lia; reflexivity).
    replace (termno + len (lineno :: rest)) with (termno + 1 + len rest)
      by (unfold len; cbn [length]; lia).
    assert (Hc : match py_index data lineno with
                 | Ok line =>
                     out line width (if lineno =? focus then highlight else [])
                 | _ => out [] width []
                 end
                 = Cell (fst (body_cell data width focus lineno))
                        (snd (body_cell data width focus lineno)))
      by (unfold body_cell, out; destruct (py_index data lineno); reflexivity).
    unfold body_row. rewrite Hc. reflexivity.
Qed.

Lemma combine_snoc {A B} (l1 : list A) (l2 : list B) (x : A) (y : B) :
  length l1 = length l2 ->
  combine (l1 ++ [x]) (l2 ++ [y]) = combine l1 l2 ++ [(x, y)].
Proof.
  revert l2. induction l1 as [|a l1 IH]; intros [|b l2] H; try discriminate.
  - reflexivity.
  - simpl. f_equal. apply IH. simpl in H. lia.
Qed.

(** X18.  A frame is written row by row: each row is one placement of the
    cursor followed by one cell, and the rows are placed at the lines 1,
    2, ... of the terminal in this order, up to [max(2, height)]; the
    footer is always the last of them. *)
Theorem rows_are_placed_in_order (data : list str) (width height focus : Z)
    (lastline : str) :
  gotos (render data width height focus lastline)
  = py_range 1 (Z.max 2 height + 1)
  /\ render data width height focus lastline
     = flat_map (fun p => [Goto (fst p); Cell (fst (snd p)) (snd (snd p))])
         (combine (py_range 1 (Z.max 2 height + 1))
                  (cells (render data width height focus lastline))).
Proof.
  set (lower := lower_of data height focus).
  set (linenos := py_range lower (lower + height - 2)).
  assert (Hn : len linenos = Z.max 0 (height - 2)).
  { subst linenos. rewrite py_range_length. lia. }
  assert (Hr : py_range 1 (Z.max 2 height + 1)
               = 1 :: py_range 2 (2 + len linenos) ++ [2 + len linenos]).
  { rewrite (py_range_split 1 (Z.max 2 height + 1) 1) by lia.
    replace (py_range 1 1) with (@nil Z) by reflexivity. cbn [app]. f_equal.
    rewrite (py_range_split (1 + 1) (Z.max 2 height + 1) (2 + len linenos))
      by lia.
    replace (py_range (2 + len linenos + 1) (Z.max 2 height + 1)) with (@nil Z).
    - reflexivity.
    - unfold py_range.
      replace (Z.max 2 height + 1 - (2 + len linenos + 1)) with 0 by lia.
      reflexivity. }
  split.
  - unfold render. fold lower. fold linenos.
    cbn [app gotos out]. rewrite gotos_app, gotos_body. cbn [gotos out].
    rewrite Hr. reflexivity.
  - rewrite cells_render. fold lower. fold linenos. rewrite Hr.
    cbn [combine flat_map fst snd].
    rewrite combine_snoc.
    + rewrite flat_map_app. cbn [flat_map fst snd app].
      unfold render. fold lower. fold linenos. cbn [app out].
      do 2 f_equal. rewrite body_alternates. reflexivity.
    + rewrite length_map. unfold len in *.
      assert (H := py_range_length 2 (2 + Z.of_nat (length linenos))).
      unfold len in H. lia.
Qed.

(** ** The terminal session *)

(** X19.  A session that was entered: both files were opened and the writes of
    [__enter__] went to the terminal, after the switch to cbreak mode.
    Whatever happens in between, [__exit__] writes its two sequences to
    the current standard output, flushes it, and puts back the
    attributes of the terminal and the bindings of [sys.stdout] and
    [sys.stdin] that [__enter__] found; [sys.__stdout__] and
    [sys.__stdin__] get those same two files, not the ones they had. *)
Theorem session_restores (file attributes : Type)
    (setcbreak : attributes -> attributes)
    (open_w open_r : option file) (getattr : bool)
    (sys sys1 : Console.system file attributes)
    (self : Console.console file attributes) :
  Console.enter setcbreak open_w open_r getattr sys = (Some self, sys1) ->
  (exists w r,
     open_w = Some w /\ open_r = Some r /\ getattr = true
     /\ Console.stdout sys1 = w /\ Console.stdin sys1 = r
     /\ Console.tty_attributes sys1 = setcbreak (Console.tty_attributes sys)
     /\ Console.written sys1
        = Console.written sys
          ++ [(w, Console.HIDE_CURSOR); (w, Console.ALTERNATE_BUFFER_ON)])
  /\ forall sys2,
       Console.stdout (Console.exit self sys2) = Console.stdout sys
       /\ Console.stdin (Console.exit self sys2) = Console.stdin sys
       /\ Console.tty_attributes (Console.exit self sys2)
          = Console.tty_attributes sys
       /\ Console.dunder_stdout (Console.exit self sys2) = Console.stdout sys
       /\ Console.dunder_stdin (Console.exit self sys2) = Console.stdin sys
       /\ Console.written (Console.exit self sys2)
          = Console.written sys2
            ++ [(Console.stdout sys2, Console.SHOW_CURSOR);
                (Console.stdout sys2, Console.ALTERNATE_BUFFER_OFF)]
       /\ Console.flushed (Console.exit self sys2)
          = Console.flushed sys2 ++ [Console.stdout sys2].
Proof.
  unfold Console.enter.
  destruct open_w as [w|]; [|discriminate].
  destruct open_r as [r|]; [|discriminate].
  destruct getattr; [|discriminate].
  intros H. inversion H; subst; clear H. split.
  - exists w, r. repeat split.
    unfold Console.stdout_write. cbn. rewrite <- app_assoc. reflexivity.
  - intros sys2. repeat split.
    unfold Console.exit, Console.stdout_write. cbn.
    rewrite <- app_assoc. reflexivity.
Qed.

Lemma session_restores_witness :
  exists self sys1,
    Console.enter negb (Some 7%nat) (Some 8%nat) true Console.sample
    = (Some self, sys1)
    /\ Console.stdout (Console.exit self sys1) = 1%nat
    /\ Console.tty_attributes (Console.exit self sys1) = true.
Proof.
  eexists. eexists. split; [reflexivity|].
  destruct (session_restores nat bool negb (Some 7%nat) (Some 8%nat) true
              Console.sample _ _ eq_refl) as (_ & Hexit).
  match goal with
  | |- Console.stdout (Console.exit _ ?x) = _ /\ _ =>
      destruct (Hexit x) as (Hout & _ & Hattr & _)
  end.
  split; [exact Hout | exact Hattr].
Defined.

(** X20.  A session that could not be entered wrote nothing and left the
    attributes of the terminal as they were.  When the first [open] fails
    nothing at all has changed; when a later step fails, [sys.stdout]
    stays bound to the terminal, for [__exit__] is not run. *)
Theorem session_failure (file attributes : Type)
    (setcbreak : attributes -> attributes)
    (open_w open_r : option file) (getattr : bool)
    (sys sys1 : Console.system file attributes) :
  Console.enter setcbreak open_w open_r getattr sys = (None, sys1) ->
  Console.tty_attributes sys1 = Console.tty_attributes sys
  /\ Console.written sys1 = Console.written sys
  /\ (open_w = None -> sys1 = sys)
  /\ (forall w, open_w = Some w ->
                Console.stdout sys1 = w /\ Console.dunder_stdout sys1 = w).
Proof.
  unfold Console.enter.
  destruct open_w as [w|].
  - destruct open_r as [r|].
    + destruct getattr; [discriminate|].
      intros H. inversion H; subst; clear H. cbn.
      split; [reflexivity|]. split; [reflexivity|]. split; [discriminate|].
      intros w' Hw. inversion Hw; subst. split; reflexivity.
    + intros H. inversion H; subst; clear H. cbn.
      split; [reflexivity|]. split; [reflexivity|]. split; [discriminate|].
      intros w' Hw. inversion Hw; subst. split; reflexivity.
  - intros H. inversion H; subst; clear H.
    split; [reflexivity|]. split; [reflexivity|]. split; [reflexivity|].
    discriminate.
Qed.

Lemma session_failure_witness :
  exists sys1,
    Console.enter negb (Some 7%nat) None true Console.sample = (None, sys1)
    /\ Console.tty_attributes sys1 = true
    /\ Console.stdout sys1 = 7%nat.
Proof.
  eexists. split; [reflexivity|].
  destruct (session_failure nat bool negb (Some 7%nat) None true
              Console.sample _ eq_refl) as (Ha & _ & _ & Hw).
  split; [exact Ha | apply (Hw 7%nat eq_refl)].
Defined.

(** ** What is shown and what is printed *)

Lemma cycle_events (data : list str) (size : Z * Z) (st : state) (tty : str) :
  fst (cycle data size st tty) = []
  \/ exists st1 lastline,
       refresh data st = Ok st1
       /\ fst (cycle data size st tty)
          = [EvRender (mydata st1) (fst size) (snd size) (focus st1) lastline].
Proof.
  unfold cycle. destruct (refresh data st) as [st1| |]; cbn [bind]; auto.
  destruct (lastline_of st1) as [lastline| |]; cbn [bind]; auto.
  right. exists st1, lastline. split; [reflexivity|].
  destruct (get_input tty) as [[key rest]|]; [|reflexivity].
  destruct (dispatch st1 key) as [[st2|st2]| |]; reflexivity.
Qed.

(** An invariant of the states, kept by the refresh and by the keys, holds
    of every state that is rendered and of the state that a breaking key
    is applied to. *)
Lemma loop_invariant (P : state -> Prop) (data : list str)
    (size : nat -> Z * Z) :
  (forall st st1, P st -> refresh data st = Ok st1 -> P st1) ->
  (forall st key st', P st -> dispatch st key = Ok (Continue st') -> P st') ->
  forall fuel n st0 tty,
    P st0 ->
    Forall (fun ev => exists st w h lastline,
                        P st /\ ev = EvRender (mydata st) w h (focus st) lastline)
           (fst (loop fuel data size n st0 tty))
    /\ (forall st, snd (loop fuel data size n st0 tty) = Left st ->
                   exists st1 key,
                     P st1 /\ dispatch st1 (Some key) = Ok (Break st)).
Proof.
  intros Hrefresh Hkey.
  induction fuel as [|fuel IH]; intros n st0 tty H0.
  - split; [constructor | discriminate].
  - cbn [loop].
    pose proof (cycle_events data (size n) st0 tty) as Hev.
    destruct (cycle data (size n) st0 tty) as [evs [e|[st' tty']]] eqn:Ec.
    + cbn [fst snd] in *. split.
      * destruct Hev as [-> | (st1 & lastline & Hr & ->)]; [constructor|].
        repeat constructor. exists st1, (fst (size n)), (snd (size n)), lastline.
        split; [exact (Hrefresh st0 st1 H0 Hr) | reflexivity].
      * intros st ->. apply cycle_left in Ec.
        destruct Ec as (st1 & key & lastline & Hr & Hd & _).
        exists st1, key. split; [exact (Hrefresh st0 st1 H0 Hr) | exact Hd].
    + cbn [fst] in Hev.
      pose proof Ec as Ec'. apply cycle_next in Ec'.
      destruct Ec' as (_ & _ & st1 & key & Hr & Hd).
      assert (H' : P st')
        by (exact (Hkey st1 key st' (Hrefresh st0 st1 H0 Hr) Hd)).
      specialize (IH (S n) st' tty' H').
      destruct (loop fuel data size (S n) st' tty') as [evs' e].
      cbn [fst snd] in *. destruct IH as [IH1 IH2]. split; [|exact IH2].
      apply Forall_app. split; [|exact IH1].
      destruct Hev as [-> | (st1' & lastline & Hr' & ->)]; [constructor|].
      repeat constructor.
      exists st1', (fst (size n)), (snd (size n)), lastline.
      split; [exact (Hrefresh st0 st1' H0 Hr') | reflexivity].
Qed.

Lemma py_index_in {A} (l : list A) (i : Z) (a : A) :
  py_index l i = Ok a -> In a l.
Proof.
  unfold py_index. destruct (_ && _); [|discriminate].
  destruct (nth_error l _) as [b|] eqn:E; [|discriminate].
  intros H. inversion H; subst. eapply nth_error_In. exact E.
Qed.

Lemma dispatch_continue_mydata (st st' : state) (key : option str) :
  dispatch st key = Ok (Continue st') -> mydata st' = mydata st.
Proof.
  unfold dispatch. destruct key as [key|]; [|intros H; inversion H; reflexivity].
  repeat match goal with
         | |- context [if ?b then _ else _] => destruct b
         end;
    try (intros H; inversion H; reflexivity).
  destruct (py_index (mydata st) (focus st)); cbn [bind]; discriminate.
Qed.

Lemma refresh_view (data : list str) (st st1 : state) :
  (exists keep, mydata st = filter keep data) ->
  refresh data st = Ok st1 ->
  exists keep, mydata st1 = filter keep data.
Proof.
  intros Hv. unfold refresh.
  destruct (py_index filters (filter_mode st)) as [entry| |] eqn:Ei;
    cbn [bind]; try discriminate.
  assert (Hentry : In (fst entry) [filter_fuzzy; filter_regex]).
  { apply py_index_in in Ei. simpl in Ei.
    destruct Ei as [<-|[<-|[]]]; simpl; auto. }
  destruct (negb _); [|intros H; inversion H; subst; exact Hv].
  destruct (filter_cases (search_term st) (fst entry) Hentry)
    as [(keep & Hk) | [Hk | Hk]]; rewrite Hk; cbn [bind]; try discriminate.
  intros H. inversion H; subst. cbn [mydata]. eauto.
Qed.

(** X21.  The program shows and prints lines of its input only.  In every run,
    each view that is rendered consists of lines of the line list, in
    their order there (it is the line list filtered by some test), and a
    line that is printed is one of the lines of the line list. *)
Theorem only_input_lines_are_shown_and_printed (stdin : str)
    (size : nat -> Z * Z) (tty : str) :
  Forall (fun ev =>
            forall view w h f lastline,
              ev = EvRender view w h f lastline ->
              exists keep,
                view = filter keep (map strip_nl (readlines stdin)))
         (fst (main stdin size tty))
  /\ forall line,
       In (EvPrint line) (fst (main stdin size tty)) ->
       In line (map strip_nl (readlines stdin)).
Proof.
  set (data := map strip_nl (readlines stdin)).
  set (P := fun st : state =>
              rprint st = None /\ exists keep, mydata st = filter keep data).
  assert (H0 : P (initial data)).
  { split; [reflexivity|]. exists (fun _ => true). cbn [initial mydata].
    symmetry. apply filter_all. reflexivity. }
  assert (Hrefresh : forall st st1, P st -> refresh data st = Ok st1 -> P st1).
  { intros st st1 [Hr Hv] H. split.
    - rewrite (refresh_rprint _ _ _ H). exact Hr.
    - eapply refresh_view; eassumption. }
  assert (Hkey : forall st key st',
             P st -> dispatch st key = Ok (Continue st') -> P st').
  { intros st key st' [Hr Hv] H. split.
    - rewrite (dispatch_continue_rprint _ _ _ H). exact Hr.
    - rewrite (dispatch_continue_mydata _ _ _ H). exact Hv. }
  destruct (loop_invariant P data size Hrefresh Hkey (S (length tty)) 0%nat
              (initial data) tty H0) as [Hevs Hleft].
  assert (Hview : Forall (fun ev =>
                     forall view w h f lastline,
                       ev = EvRender view w h f lastline ->
                       exists keep, view = filter keep data)
                    (fst (loop (S (length tty)) data size 0 (initial data) tty))).
  { eapply Forall_impl; [|exact Hevs]. cbn beta.
    intros ev (st & w & h & lastline & [_ Hv] & ->) view w' h' f' l' Heq.
    inversion Heq; subst. exact Hv. }
  assert (Hnoprint : forall line,
             ~ In (EvPrint line)
                  (fst (loop (S (length tty)) data size 0 (initial data) tty))).
  { intros line Hin. rewrite Forall_forall in Hevs.
    destruct (Hevs _ Hin) as (st & w & h & lastline & _ & Heq). discriminate. }
  unfold main. fold data.
  destruct (loop (S (length tty)) data size 0 (initial data) tty) as [evs e].
  cbn [fst snd] in *.
  assert (Hother : forall tail,
             (forall ev, In ev tail -> forall view w h f lastline,
                           ev <> EvRender view w h f lastline) ->
             Forall (fun ev =>
                       forall view w h f lastline,
                         ev = EvRender view w h f lastline ->
                         exists keep, view = filter keep data)
                    (EvAcquire :: evs ++ tail)).
  { intros tail Htail. constructor; [discriminate|].
    apply Forall_app. split; [exact Hview|].
    apply Forall_forall. intros ev Hin view w h f l Heq.
    exfalso. eapply Htail; eassumption. }
  destruct e as [st|x|st| |].
  - destruct (Hleft st eq_refl) as (st1 & key & [Hr1 (keep & Hv1)] & Hd).
    cbn [fst]. split.
    + apply Hother. intros ev Hin view w h f l Heq. subst ev.
      destruct (rprint st) as [line|]; [destruct (truthy line)|];
        simpl in Hin; intuition discriminate.
    + intros line Hin. destruct Hin as [Hin|Hin]; [discriminate|].
      apply in_app_or in Hin. destruct Hin as [Hin|Hin];
        [exfalso; eapply Hnoprint; exact Hin|].
      destruct (dispatch_break _ _ _ Hd)
        as [(_ & line' & Hidx & ->) | (_ & ->)].
      * cbn [rprint set_rprint] in Hin.
        assert (line = line').
        { destruct (truthy line'); simpl in Hin;
            intuition (try discriminate); congruence. }
        subst line'. apply py_index_in in Hidx. rewrite Hv1 in Hidx.
        apply filter_In in Hidx. tauto.
      * rewrite Hr1 in Hin. simpl in Hin. intuition discriminate.
  - cbn [fst]. split.
    + apply Hother. intros ev Hin view w h f l Heq. subst ev.
      simpl in Hin. intuition discriminate.
    + intros line [Hin|Hin]; [discriminate|].
      apply in_app_or in Hin. destruct Hin as [Hin|Hin];
        [exfalso; eapply Hnoprint; exact Hin|].
      simpl in Hin. intuition discriminate.
  - cbn [fst]. split.
    + constructor; [discriminate | exact Hview].
    + intros line [Hin|Hin]; [discriminate|].
      exfalso; eapply Hnoprint; exact Hin.
  - cbn [fst]. split.
    + constructor; [discriminate | exact Hview].
    + intros line [Hin|Hin]; [discriminate|].
      exfalso; eapply Hnoprint; exact Hin.
  - cbn [fst]. split.
    + constructor; [discriminate | exact Hview].
    + intros line [Hin|Hin]; [discriminate|].
      exfalso; eapply Hnoprint; exact Hin.
Qed.
